(** * A shallow embedding of [btc_turtle_monitor.py]

    The monitor polls a BTC/USD price once per tick, keeps a bounded list of
    past prices and prints/notifies a Turtle (channel breakout) signal:
    BUY when flat and the close breaks above the high of the previous
    [ENTRY_LOOKBACK] prices, SELL when long and the close breaks below the low
    of the previous [EXIT_LOOKBACK] prices.

    Prices are Python floats, that is IEEE 754 binary64 values; they are
    modelled by [spec_float] and compared with [SFcompare], so NaN, the
    infinities and the two zeros behave as they do under Python's [<], [>]
    and [==].  The three module-level globals become the fields of [State];
    the body of the [while True] loop becomes [tick], a function of the state
    and of what the outside world answered during that iteration. *)

From Stdlib Require Import ZArith List Bool Lia.
From Stdlib Require Import Floats.SpecFloat.
Import ListNotations.

Open Scope Z_scope.

(** ** Python primitives used by the program *)

Module Py.

(** Built-in exceptions the modelled expressions can raise. *)
Inductive exn : Type :=
| ValueError   (* max() / min() of an empty sequence *)
| IndexError.  (* list index out of range *)

Inductive result (A : Type) : Type :=
| Ok (a : A)
| Raise (e : exn).
Arguments Ok {A} a.
Arguments Raise {A} e.

Definition bind {A B} (m : result A) (k : A -> result B) : result B :=
  match m with
  | Ok a => k a
  | Raise e => Raise e
  end.

(** A Python [float]. *)
Definition float : Type := spec_float.

(** [float(z)] for an integer [z] that binary64 represents exactly. *)
Definition float_of_Z (z : Z) : float := binary_normalize 53 1024 z 0 false.

(** [a > b], [a < b] and [a == b] on floats. *)
Definition float_gt (a b : float) : bool :=
  match SFcompare a b with
  | Some Gt => true
  | _ => false
  end.

Definition float_lt (a b : float) : bool := SFltb a b.
Definition float_le (a b : float) : bool := SFleb a b.
Definition float_eq (a b : float) : bool := SFeqb a b.

(** [len(l)] *)
Definition len {A} (l : list A) : Z := Z.of_nat (length l).

(** [l[i]] with Python's negative indices. *)
Definition index {A} (l : list A) (i : Z) : result A :=
  let j := if i <? 0 then i + len l else i in
  if (0 <=? j) && (j <? len l)
  then match nth_error l (Z.to_nat j) with
       | Some x => Ok x
       | None => Raise IndexError
       end
  else Raise IndexError.

(** One bound of a slice, brought into [0 .. len] the way CPython's
    [PySlice_AdjustIndices] does for a step of 1. *)
Definition adjust_index (n i : Z) : Z :=
  if i <? 0 then Z.max 0 (i + n) else Z.min i n.

(** [l[start:stop]] *)
Definition slice {A} (l : list A) (start stop : Z) : list A :=
  let a := adjust_index (len l) start in
  let b := adjust_index (len l) stop in
  firstn (Z.to_nat (b - a)) (skipn (Z.to_nat a) l).

(** The loop shared by [max] and [min]: the running best is replaced only
    by an item that compares strictly better, so the first of several
    equal extrema is the one returned. *)
Fixpoint extremum (better : float -> float -> bool)
         (best : float) (rest : list float) : float :=
  match rest with
  | [] => best
  | x :: rest' => extremum better (if better x best then x else best) rest'
  end.

(** [max(l)] and [min(l)] *)
Definition max (l : list float) : result float :=
  match l with
  | [] => Raise ValueError
  | x :: rest => Ok (extremum float_gt x rest)
  end.

Definition min (l : list float) : result float :=
  match l with
  | [] => Raise ValueError
  | x :: rest => Ok (extremum float_lt x rest)
  end.

(** [l.append(x)] and [l.pop(0)] (the popped value is not used by the
    program; on an empty list [pop] raises). *)
Definition append {A} (l : list A) (x : A) : list A := l ++ [x].

Definition pop0 {A} (l : list A) : result (list A) :=
  match l with
  | [] => Raise IndexError
  | _ :: rest => Ok rest
  end.

End Py.

Import Py.

Notation "x <- m ;; k" := (Py.bind m (fun x => k))
  (at level 61, m at next level, right associativity).

(** ** Configuration and state *)

Definition ENTRY_LOOKBACK : Z := 20.
Definition EXIT_LOOKBACK : Z := 10.
Definition MIN_HISTORY : Z := Z.max ENTRY_LOOKBACK EXIT_LOOKBACK + 1.

(** The values [generate_signal] returns besides [None]. *)
Inductive Signal : Type :=
| BUY
| SELL.

Definition Signal_eqb (a b : Signal) : bool :=
  match a, b with
  | BUY, BUY | SELL, SELL => true
  | _, _ => false
  end.

(** The module globals [prices], [position] (0 flat, 1 long) and
    [last_signal]. *)
Record State : Type := mkState {
  prices : list float;
  position : Z;
  last_signal : option Signal
}.

Definition initial_state : State :=
  {| prices := []; position := 0; last_signal := None |}.

(** ** [generate_signal] *)

Definition generate_signal (st : State) : result (option Signal) :=
  if len (prices st) <? MIN_HISTORY then Ok None
  else
    close <- index (prices st) (-1) ;;
    recent_high <- Py.max (slice (prices st) (- ENTRY_LOOKBACK - 1) (-1)) ;;
    recent_low <- Py.min (slice (prices st) (- EXIT_LOOKBACK - 1) (-1)) ;;
    if (position st =? 0) && float_gt close recent_high then Ok (Some BUY)
    else if (position st =? 1) && float_lt close recent_low then Ok (Some SELL)
    else Ok None.

(** ** The main loop *)

(** What one iteration writes to the console or sends out. *)
Inductive Event : Type :=
| FetchErrorLine
| PriceLine (price : float) (history_len : Z)
| SignalBlock (signal : Signal) (price : float) (position_after : Z)
| NotifySent (signal : Signal) (price : float)
| NotifyError.

(** What the outside world does during one iteration: [answer] is the price
    the HTTP request to the price source yields, [None] when anything in the
    [try] block of [fetch_price] raises; [notify_ok] tells whether the
    [openclaw] subprocess ran successfully. *)
Record Tick : Type := mkTick {
  answer : option float;
  notify_ok : bool
}.

(** [fetch_price]: the exception of a failed request is caught and printed,
    and [None] is returned. *)
Definition fetch_price (inp : Tick) : option float * list Event :=
  match answer inp with
  | Some price => (Some price, [])
  | None => (None, [FetchErrorLine])
  end.

(** [send_signal_notification]: the failure of the subprocess is caught and
    printed; nothing is returned and no global is touched. *)
Definition send_signal_notification (ok : bool) (signal : Signal)
           (price : float) : list Event :=
  if ok then [NotifySent signal price] else [NotifyError].

(** [prices.append(price)] followed by the truncation to 5000 entries. *)
Definition append_price (ps : list float) (price : float)
  : result (list float) :=
  let ps := append ps price in
  if len ps >? 5000 then pop0 ps else Ok ps.

(** [signal != last_signal] for a signal that is not [None]. *)
Definition is_new_signal (signal : Signal) (last : option Signal) : bool :=
  match last with
  | None => true
  | Some l => negb (Signal_eqb signal l)
  end.

(** The part of the iteration that follows [signal = generate_signal()]:
    the test [signal is not None and signal != last_signal] and its body. *)
Definition on_signal (signal : option Signal) (ok : bool) (price : float)
           (st : State) : result (State * list Event) :=
  match signal with
  | None => Ok (st, [])
  | Some s =>
      if is_new_signal s (last_signal st) then
        let pos :=
          match s with
          | BUY => 1
          | SELL => 0
          end in
        Ok ({| prices := prices st; position := pos; last_signal := Some s |},
            SignalBlock s price pos :: send_signal_notification ok s price)
      else Ok (st, [])
  end.

(** One iteration of [while True]. *)
Definition tick (inp : Tick) (st : State) : result (State * list Event) :=
  match fetch_price inp with
  | (None, log) => Ok (st, log)
  | (Some price, log) =>
      ps <- append_price (prices st) price ;;
      let st1 :=
        {| prices := ps; position := position st;
           last_signal := last_signal st |} in
      signal <- generate_signal st1 ;;
      r <- on_signal signal (notify_ok inp) price st1 ;;
      Ok (fst r, log ++ PriceLine price (len ps) :: snd r)
  end.

(** The first [length inps] iterations of the loop, with the events in the
    order they happen. *)
Fixpoint run (inps : list Tick) (st : State)
  : result (State * list Event) :=
  match inps with
  | [] => Ok (st, [])
  | inp :: rest =>
      r <- tick inp st ;;
      r' <- run rest (fst r) ;;
      Ok (fst r', snd r ++ snd r')
  end.

(** The four lines [main_loop] prints before its first iteration: the
    start message, the settings, the data source and a rule. *)
Inductive Banner : Type :=
| StartedLine
| SettingsLine (interval entry_lookback exit_lookback : Z)
| DataSourceLine
| RuleLine.

Definition INTERVAL_SECONDS : Z := 60.

Definition banner : list Banner :=
  [StartedLine;
   SettingsLine INTERVAL_SECONDS ENTRY_LOOKBACK EXIT_LOOKBACK;
   DataSourceLine;
   RuleLine].

(** [main_loop], observed after [length inps] iterations: it starts from
    the globals as the module sets them, prints the banner and then loops.
    Its output is the banner followed by what the iterations print. *)
Definition main_loop (inps : list Tick)
  : result (State * list (Banner + Event)) :=
  r <- run inps initial_state ;;
  Ok (fst r, map inl banner ++ map inr (snd r)).

(** ** Vocabulary of the properties *)

(** The position an accepted signal leaves behind. *)
Definition position_for (s : Signal) : Z :=
  match s with
  | BUY => 1
  | SELL => 0
  end.

(** The signals announced by a run, oldest first. *)
Fixpoint emitted (evs : list Event) : list Signal :=
  match evs with
  | [] => []
  | SignalBlock s _ _ :: rest => s :: emitted rest
  | _ :: rest => emitted rest
  end.

(** No signal is followed by the same signal. *)
Fixpoint alternating (l : list Signal) : bool :=
  match l with
  | [] => true
  | a :: rest =>
      match rest with
      | [] => true
      | b :: _ => negb (Signal_eqb a b)
      end && alternating rest
  end.

(** The position and the last signal tell the same story. *)
Definition consistent (st : State) : Prop :=
  (position st = 1 <-> last_signal st = Some BUY) /\
  (position st = 0 <->
   (last_signal st = Some SELL \/ last_signal st = None)).

(** The newest 5000 elements of a list, in their order (the whole list when
    it has no more than 5000). *)
Definition newest_5000 {A} (l : list A) : list A :=
  skipn (Z.to_nat (len l - 5000)) l.

(** The prices a sequence of iterations obtained, oldest first. *)
Fixpoint fetched_prices (inps : list Tick) : list float :=
  match inps with
  | [] => []
  | inp :: rest =>
      match answer inp with
      | Some price => price :: fetched_prices rest
      | None => fetched_prices rest
      end
  end.

(** Sample prices, and the iterations that obtain them. *)
Definition p9 : float := float_of_Z 9.
Definition p10 : float := float_of_Z 10.
Definition p11 : float := float_of_Z 11.

Definition got (price : float) : Tick :=
  {| answer := Some price; notify_ok := true |}.

(** The shape of what the loop prints.  One iteration prints the error
    line of a failed request, or the price line with the length of the
    history, followed for an announced signal by its block and by the line
    of the one notification attempt, for the same signal and price. *)
Inductive tick_log : list Event -> Prop :=
| log_fetch_failed :
    tick_log [FetchErrorLine]
| log_price (price : float) (n : Z) :
    1 <= n <= 5000 ->
    tick_log [PriceLine price n]
| log_signal (price : float) (n : Z) (s : Signal) (ok : bool) :
    1 <= n <= 5000 ->
    tick_log (PriceLine price n
                :: SignalBlock s price (position_for s)
                :: send_signal_notification ok s price).

Inductive run_log : list Event -> Prop :=
| log_nil : run_log []
| log_app (one more : list Event) :
    tick_log one -> run_log more -> run_log (one ++ more).

(** The position at which [generate_signal] can return a signal. *)
Definition position_before (s : Signal) : Z :=
  match s with
  | BUY => 0
  | SELL => 1
  end.

(** ** The order on floats *)

Section FloatOrder.

Ltac split_floats :=
  repeat match goal with
         | f : float |- _ => destruct f
         | f : spec_float |- _ => destruct f
         end;
  repeat match goal with
         | s : bool |- _ => destruct s
         end.

Ltac compare_cases :=
  change (Pos.compare_cont Eq) with Pos.compare in *;
  repeat match goal with
         | H : context [Z.compare ?a ?b] |- _ =>
             destruct (Z.compare_spec a b); simpl in H; try discriminate H
         | |- context [Z.compare ?a ?b] =>
             destruct (Z.compare_spec a b); simpl
         | H : context [Pos.compare ?a ?b] |- _ =>
             destruct (Pos.compare_spec a b); simpl in H; try discriminate H
         | |- context [Pos.compare ?a ?b] =>
             destruct (Pos.compare_spec a b); simpl
         end;
  subst; try reflexivity; try discriminate; try lia.

Lemma SFcompare_swap (a b : float) :
  SFcompare b a = option_map CompOpp (SFcompare a b).
Proof.
  split_floats; simpl; try reflexivity; compare_cases.
Qed.

Lemma SFcompare_lt_trans (a b c : float) :
  SFcompare a b = Some Lt -> SFcompare b c = Some Lt ->
  SFcompare a c = Some Lt.
Proof.
  split_floats; simpl; intros H1 H2; try discriminate; try reflexivity;
    compare_cases.
Qed.

Lemma SFcompare_eq_l (a b c : float) :
  SFcompare a b = Some Eq -> SFcompare a c = SFcompare b c.
Proof.
  split_floats; simpl; intros H1; try discriminate; try reflexivity;
    compare_cases.
Qed.


Ltac float_order :=
  unfold float_gt, float_lt, float_le, float_eq, SFltb, SFleb, SFeqb;
  split_floats; simpl; intros; try discriminate; try reflexivity;
  compare_cases.

Lemma float_gt_lt (a b : float) : float_gt a b = float_lt b a.
Proof. float_order. Qed.

(** Nothing at or below [c] is above something equal to [c]. *)
Lemma float_gt_le_eq (x b c : float) :
  float_le x c = true -> float_eq b c = true -> float_gt x b = false.
Proof. float_order. Qed.

Lemma float_lt_ge_eq (x b c : float) :
  float_le c x = true -> float_eq b c = true -> float_lt x b = false.
Proof. float_order. Qed.

(** A running best at or below [c] that an item equal to [c] does not
    beat is itself equal to [c]. *)
Lemma float_eq_not_gt (x b c : float) :
  float_le b c = true -> float_eq x c = true -> float_gt x b = false ->
  float_eq b c = true.
Proof. float_order. Qed.

Lemma float_eq_not_lt (x b c : float) :
  float_le c b = true -> float_eq x c = true -> float_lt x b = false ->
  float_eq b c = true.
Proof. float_order. Qed.

Lemma float_eq_not_gt_self (b c : float) :
  float_eq b c = true -> float_gt c b = false.
Proof. float_order. Qed.

Lemma float_eq_not_lt_self (b c : float) :
  float_eq b c = true -> float_lt c b = false.
Proof. float_order. Qed.

Lemma float_eq_le (b c : float) :
  float_eq b c = true -> float_le b c = true /\ float_le c b = true.
Proof. intros H; split; revert H; float_order. Qed.

(** After an item at or above [c] has been offered to the running
    maximum, [c] is not above the running maximum (which may be NaN). *)
Lemma float_gt_after_offer (x b c : float) :
  float_le c x = true ->
  float_gt c (if float_gt x b then x else b) = false.
Proof.
  destruct (float_gt x b) eqn:E; revert E; float_order.
Qed.

Lemma float_lt_after_offer (x b c : float) :
  float_le x c = true ->
  float_lt c (if float_lt x b then x else b) = false.
Proof.
  destruct (float_lt x b) eqn:E; revert E; float_order.
Qed.

(** *** NaN, irreflexivity and the steps of the running extremum *)

Ltac float_order_nan :=
  unfold float_gt, float_lt, float_le, float_eq, SFltb, SFleb, SFeqb;
  split_floats; simpl; intros; try congruence; compare_cases.

Lemma float_gt_irrefl (p : float) : float_gt p p = false.
Proof. float_order. Qed.

Lemma float_lt_irrefl (p : float) : float_lt p p = false.
Proof. float_order. Qed.

Lemma float_gt_nan_l (x : float) : float_gt S754_nan x = false.
Proof. reflexivity. Qed.

Lemma float_gt_nan_r (x : float) : float_gt x S754_nan = false.
Proof. destruct x; reflexivity. Qed.

Lemma float_lt_nan_l (x : float) : float_lt S754_nan x = false.
Proof. reflexivity. Qed.

Lemma float_lt_nan_r (x : float) : float_lt x S754_nan = false.
Proof. destruct x; reflexivity. Qed.

Lemma float_gt_trans (a b c : float) :
  float_gt a b = true -> float_gt b c = true -> float_gt a c = true.
Proof. float_order. Qed.

Lemma float_lt_trans (a b c : float) :
  float_lt a b = true -> float_lt b c = true -> float_lt a c = true.
Proof. float_order. Qed.

Lemma float_le_trans (a b c : float) :
  float_le a b = true -> float_le b c = true -> float_le a c = true.
Proof. float_order. Qed.

Lemma float_le_refl (x : float) : x <> S754_nan -> float_le x x = true.
Proof. float_order_nan. Qed.

(** What is above a running maximum is above every item that did not
    replace it, NaN apart. *)
Lemma float_gt_not_replaced (c x b : float) :
  float_gt c b = true -> float_gt x b = false -> x <> S754_nan ->
  float_gt c x = true.
Proof. float_order_nan. Qed.

Lemma float_lt_not_replaced (c x b : float) :
  float_lt c b = true -> float_lt x b = false -> x <> S754_nan ->
  float_lt c x = true.
Proof. float_order_nan. Qed.

Lemma float_le_of_gt (x b : float) :
  float_gt x b = true -> float_le b x = true.
Proof. float_order. Qed.

Lemma float_le_of_lt (x b : float) :
  float_lt x b = true -> float_le x b = true.
Proof. float_order. Qed.

Lemma float_le_of_not_gt (x b : float) :
  float_gt x b = false -> x <> S754_nan -> b <> S754_nan ->
  float_le x b = true.
Proof. float_order_nan. Qed.

Lemma float_le_of_not_lt (x b : float) :
  float_lt x b = false -> x <> S754_nan -> b <> S754_nan ->
  float_le b x = true.
Proof. float_order_nan. Qed.

Lemma float_nan_dec (x : float) : {x = S754_nan} + {x <> S754_nan}.
Proof. destruct x; (now left) || (right; discriminate). Qed.

End FloatOrder.


(** ** Lists, indices and slices *)

Section Sequences.

Context {A : Type}.

Lemma len_app (l1 l2 : list A) : len (l1 ++ l2) = len l1 + len l2.
Proof. unfold len. rewrite length_app. lia. Qed.

Lemma len_nonneg (l : list A) : 0 <= len l.
Proof. unfold len. lia. Qed.

(** [l[-1]] is the last element. *)
Lemma index_last (l : list A) (x : A) : index (l ++ [x]) (-1) = Ok x.
Proof.
  unfold index. rewrite len_app. change (len [x]) with 1.
  pose proof (len_nonneg l) as Hl.
  replace (-1 <? 0) with true by reflexivity.
  replace (-1 + (len l + 1)) with (len l) by lia.
  destruct (Z.leb_spec 0 (len l)); [|lia].
  destruct (Z.ltb_spec (len l) (len l + 1)); [|lia].
  simpl. unfold len. rewrite Nat2Z.id.
  rewrite nth_error_app2 by lia.
  replace (length l - length l)%nat with 0%nat by lia. reflexivity.
Qed.

(** [l[-k-1:-1]] is the run of [k] elements that precedes the last one. *)
Lemma slice_preceding (older w : list A) (x : A) (k : Z) :
  len w = k -> slice (older ++ w ++ [x]) (- k - 1) (-1) = w.
Proof.
  intros Hk. unfold slice, adjust_index.
  rewrite !len_app. change (len [x]) with 1.
  pose proof (len_nonneg older) as Ho. pose proof (len_nonneg w) as Hw.
  destruct (Z.ltb_spec (- k - 1) 0); [|lia].
  destruct (Z.ltb_spec (-1) 0); [|lia].
  replace (Z.max 0 (- k - 1 + (len older + (len w + 1)))) with (len older)
    by lia.
  replace (Z.max 0 (-1 + (len older + (len w + 1)))
           - len older) with (len w) by lia.
  unfold len. rewrite !Nat2Z.id.
  rewrite skipn_app, skipn_all, Nat.sub_diag. simpl.
  rewrite firstn_app, firstn_all, Nat.sub_diag. simpl.
  apply app_nil_r.
Qed.

End Sequences.

Section Extremum.

Variable better : float -> float -> bool.

Lemma extremum_In (rest : list float) :
  forall best, In (extremum better best rest) (best :: rest).
Proof.
  induction rest as [|x rest IH]; intros best; simpl.
  - now left.
  - destruct (IH (if better x best then x else best)) as [H|H].
    + destruct (better x best); rewrite <- H; auto.
    + auto.
Qed.

(** Offering one more item at the end is one more step of the loop. *)
Lemma extremum_snoc (rest : list float) (x : float) :
  forall best,
    extremum better best (rest ++ [x]) =
    if better x (extremum better best rest) then x
    else extremum better best rest.
Proof.
  induction rest as [|y rest IH]; intros best; simpl.
  - reflexivity.
  - apply IH.
Qed.

End Extremum.

(** ** [max] and [min] of a window *)

Section Windows.

Variable c : float.

Lemma max_In (w : list float) :
  w <> [] -> exists h, Py.max w = Ok h /\ In h w.
Proof.
  destruct w as [|x rest]; [congruence|]. intros _.
  exists (extremum float_gt x rest). split; [reflexivity|].
  apply extremum_In.
Qed.

Lemma min_In (w : list float) :
  w <> [] -> exists l, Py.min w = Ok l /\ In l w.
Proof.
  destruct w as [|x rest]; [congruence|]. intros _.
  exists (extremum float_lt x rest). split; [reflexivity|].
  apply extremum_In.
Qed.

Lemma extremum_gt_tie (rest : list float) :
  forall best,
    float_le best c = true ->
    Forall (fun x => float_le x c = true) rest ->
    float_eq best c = true \/ Exists (fun x => float_eq x c = true) rest ->
    float_eq (extremum float_gt best rest) c = true.
Proof.
  induction rest as [|x rest IH]; intros best Hb Hall Hex; simpl.
  - destruct Hex as [H|H]; [exact H|inversion H].
  - inversion Hall as [|? ? Hx Hrest]; subst.
    destruct (float_gt x best) eqn:G.
    + apply IH; auto.
      destruct Hex as [H|H].
      * rewrite (float_gt_le_eq x best c Hx H) in G. discriminate.
      * inversion H; subst; auto.
    + apply IH; auto.
      destruct Hex as [H|H]; [now left|].
      inversion H; subst; [left|now right].
      eapply float_eq_not_gt; eauto.
Qed.

Lemma extremum_lt_tie (rest : list float) :
  forall best,
    float_le c best = true ->
    Forall (fun x => float_le c x = true) rest ->
    float_eq best c = true \/ Exists (fun x => float_eq x c = true) rest ->
    float_eq (extremum float_lt best rest) c = true.
Proof.
  induction rest as [|x rest IH]; intros best Hb Hall Hex; simpl.
  - destruct Hex as [H|H]; [exact H|inversion H].
  - inversion Hall as [|? ? Hx Hrest]; subst.
    destruct (float_lt x best) eqn:G.
    + apply IH; auto.
      destruct Hex as [H|H].
      * rewrite (float_lt_ge_eq x best c Hx H) in G. discriminate.
      * inversion H; subst; auto.
    + apply IH; auto.
      destruct Hex as [H|H]; [now left|].
      inversion H; subst; [left|now right].
      eapply float_eq_not_lt; eauto.
Qed.

(** The maximum of a window in which nothing is above [c] and something
    equals [c] is equal to [c]. *)
Lemma max_tie (w : list float) :
  Forall (fun x => float_le x c = true) w ->
  Exists (fun x => float_eq x c = true) w ->
  exists h, Py.max w = Ok h /\ float_eq h c = true.
Proof.
  intros Hall Hex. destruct w as [|x rest]; [inversion Hex|].
  exists (extremum float_gt x rest). split; [reflexivity|].
  inversion Hall; subst. apply extremum_gt_tie; auto.
  inversion Hex; subst; auto.
Qed.

Lemma min_tie (w : list float) :
  Forall (fun x => float_le c x = true) w ->
  Exists (fun x => float_eq x c = true) w ->
  exists l, Py.min w = Ok l /\ float_eq l c = true.
Proof.
  intros Hall Hex. destruct w as [|x rest]; [inversion Hex|].
  exists (extremum float_lt x rest). split; [reflexivity|].
  inversion Hall; subst. apply extremum_lt_tie; auto.
  inversion Hex; subst; auto.
Qed.

(** A window that ends with a price at or above [c] has a maximum that
    [c] does not exceed, whatever the earlier prices are. *)
Lemma max_ends_high (w : list float) (x : float) :
  float_le c x = true ->
  exists h, Py.max (w ++ [x]) = Ok h /\ float_gt c h = false.
Proof.
  intros Hx. destruct w as [|y rest]; simpl.
  - exists x. split; [reflexivity|].
    apply (float_gt_after_offer x x c) in Hx.
    now destruct (float_gt x x).
  - eexists. split; [reflexivity|].
    rewrite extremum_snoc. now apply float_gt_after_offer.
Qed.

Lemma min_ends_low (w : list float) (x : float) :
  float_le x c = true ->
  exists l, Py.min (w ++ [x]) = Ok l /\ float_lt c l = false.
Proof.
  intros Hx. destruct w as [|y rest]; simpl.
  - exists x. split; [reflexivity|].
    apply (float_lt_after_offer x x c) in Hx.
    now destruct (float_lt x x).
  - eexists. split; [reflexivity|].
    rewrite extremum_snoc. now apply float_lt_after_offer.
Qed.

End Windows.

(** ** [generate_signal] *)

Lemma generate_signal_too_short (st : State) :
  len (prices st) < MIN_HISTORY -> generate_signal st = Ok None.
Proof.
  intros H. unfold generate_signal.
  apply Z.ltb_lt in H. rewrite H. reflexivity.
Qed.

(** With enough history, the function compares the last price with the
    maximum of the [ENTRY_LOOKBACK] prices before it and with the minimum of
    the [EXIT_LOOKBACK] prices before it. *)
Lemma generate_signal_windows (st : State) (older w1 w2 : list float)
      (close : float) :
  prices st = older ++ (w1 ++ w2) ++ [close] ->
  len (w1 ++ w2) = ENTRY_LOOKBACK ->
  len w2 = EXIT_LOOKBACK ->
  generate_signal st =
  (recent_high <- Py.max (w1 ++ w2) ;;
   recent_low <- Py.min w2 ;;
   if (position st =? 0) && float_gt close recent_high then Ok (Some BUY)
   else if (position st =? 1) && float_lt close recent_low then Ok (Some SELL)
   else Ok None).
Proof.
  intros Hp Hn Hm. unfold generate_signal. rewrite Hp.
  assert (Hlen : (len (older ++ (w1 ++ w2) ++ [close]) <? MIN_HISTORY) = false).
  { apply Z.ltb_ge. rewrite !len_app in *. change (len [close]) with 1.
    pose proof (len_nonneg older). unfold MIN_HISTORY.
    rewrite Hn. unfold ENTRY_LOOKBACK, EXIT_LOOKBACK. lia. }
  rewrite Hlen.
  replace (index (older ++ (w1 ++ w2) ++ [close]) (-1)) with (Ok close).
  2:{ rewrite app_assoc. symmetry. apply index_last. }
  cbn [bind].
  rewrite (slice_preceding older (w1 ++ w2) close ENTRY_LOOKBACK Hn).
  replace (older ++ (w1 ++ w2) ++ [close])
    with ((older ++ w1) ++ w2 ++ [close])
    by (rewrite <- !app_assoc; reflexivity).
  rewrite (slice_preceding (older ++ w1) w2 close EXIT_LOOKBACK Hm).
  reflexivity.
Qed.

(** Every history long enough for [generate_signal] to look at it splits
    in this way, so the lemma above loses no history. *)
Lemma history_split (ps : list float) :
  MIN_HISTORY <= len ps ->
  exists older w1 w2 close,
    ps = older ++ (w1 ++ w2) ++ [close] /\
    len (w1 ++ w2) = ENTRY_LOOKBACK /\ len w2 = EXIT_LOOKBACK.
Proof.
  unfold MIN_HISTORY, ENTRY_LOOKBACK, EXIT_LOOKBACK, len. intros H.
  assert (Hne : ps <> []) by (intros ->; simpl in H; lia).
  destruct (exists_last Hne) as [body [close ->]].
  rewrite length_app in H. simpl in H.
  set (n := length body) in *.
  exists (firstn (n - 20) body),
         (firstn 10 (skipn (n - 20) body)),
         (skipn 10 (skipn (n - 20) body)), close.
  rewrite !firstn_skipn. split.
  - rewrite app_assoc, firstn_skipn. reflexivity.
  - rewrite !length_skipn. fold n. lia.
Qed.

(** C1. On a history that ends with a full entry window followed by the
    close (so of length at least [MIN_HISTORY]): when the position is flat
    and the close is strictly above every price of the window, that is above
    their maximum, the result is BUY; when the close equals the maximum of the
    window (nothing in the window is above it and something equals it), the
    result is None, whatever the position. *)
Theorem generate_signal_enter (st : State) (older window : list float)
        (close : float) :
  prices st = older ++ window ++ [close] ->
  len window = ENTRY_LOOKBACK ->
  (position st = 0 ->
   Forall (fun x => float_gt close x = true) window ->
   generate_signal st = Ok (Some BUY))
  /\
  (Forall (fun x => float_le x close = true) window ->
   Exists (fun x => float_eq x close = true) window ->
   generate_signal st = Ok None).
Proof.
  intros Hp Hn.
  assert (Hw : window = firstn 10 window ++ skipn 10 window)
    by (symmetry; apply firstn_skipn).
  assert (Hm : len (skipn 10 window) = EXIT_LOOKBACK).
  { unfold len in *. rewrite length_skipn.
    unfold ENTRY_LOOKBACK, EXIT_LOOKBACK in *. lia. }
  assert (Hg := generate_signal_windows st older (firstn 10 window)
                  (skipn 10 window) close).
  rewrite <- Hw in Hg. specialize (Hg Hp Hn Hm).
  assert (Hne : window <> []).
  { intros ->. unfold ENTRY_LOOKBACK in Hn. discriminate Hn. }
  assert (Hne2 : skipn 10 window <> []).
  { intros E. rewrite E in Hm. discriminate Hm. }
  split.
  - intros Hpos Hall. rewrite Hg.
    destruct (max_In window Hne) as [h [-> Hin]].
    destruct (min_In _ Hne2) as [l [-> _]]. cbn [bind].
    rewrite Forall_forall in Hall. rewrite (Hall h Hin), Hpos. reflexivity.
  - intros Hall Hex. rewrite Hg.
    destruct (max_tie close window Hall Hex) as [h [-> Hh]].
    destruct (exists_last Hne2) as [body [x Hx]].
    assert (Hxc : float_le x close = true).
    { rewrite Forall_forall in Hall. apply Hall.
      rewrite Hw, Hx. apply in_or_app. right.
      apply in_or_app. right. now left. }
    rewrite Hx.
    destruct (min_ends_low close body x Hxc) as [l [-> Hl]]. cbn [bind].
    rewrite (float_eq_not_gt_self h close Hh), Hl, !andb_false_r.
    reflexivity.
Qed.

Lemma generate_signal_enter_witness :
  generate_signal (mkState (repeat p10 20%nat ++ [p11]) 0 None) = Ok (Some BUY)
  /\ generate_signal (mkState (repeat p10 20%nat ++ [p10]) 0 None) = Ok None
  /\ generate_signal (mkState (repeat p10 20%nat ++ [p10]) 1 None) = Ok None.
Proof.
  split; [|split].
  - apply (proj1 (generate_signal_enter
                    (mkState (repeat p10 20%nat ++ [p11]) 0 None)
                    [] (repeat p10 20%nat) p11 eq_refl eq_refl)).
    + reflexivity.
    + repeat constructor.
  - apply (proj2 (generate_signal_enter
                    (mkState (repeat p10 20%nat ++ [p10]) 0 None)
                    [] (repeat p10 20%nat) p10 eq_refl eq_refl)).
    + repeat constructor.
    + apply Exists_cons_hd. reflexivity.
  - apply (proj2 (generate_signal_enter
                    (mkState (repeat p10 20%nat ++ [p10]) 1 None)
                    [] (repeat p10 20%nat) p10 eq_refl eq_refl)).
    + repeat constructor.
    + apply Exists_cons_hd. reflexivity.
Defined.

(** C2. On a history of length at least [MIN_HISTORY] that ends with a full
    exit window followed by the close: when the position is long and the
    close is strictly below every price of the window, that is below their
    minimum, the result is SELL; when the close equals the minimum of the
    window, the result is None, whatever the position. *)
Theorem generate_signal_exit (st : State) (older window : list float)
        (close : float) :
  prices st = older ++ window ++ [close] ->
  len window = EXIT_LOOKBACK ->
  MIN_HISTORY <= len (prices st) ->
  (position st = 1 ->
   Forall (fun x => float_lt close x = true) window ->
   generate_signal st = Ok (Some SELL))
  /\
  (Forall (fun x => float_le close x = true) window ->
   Exists (fun x => float_eq x close = true) window ->
   generate_signal st = Ok None).
Proof.
  intros Hp Hm Hlen.
  set (k := (length older - 10)%nat).
  assert (Ho : older = firstn k older ++ skipn k older)
    by (symmetry; apply firstn_skipn).
  assert (Hn : len (skipn k older ++ window) = ENTRY_LOOKBACK).
  { rewrite Hp in Hlen. rewrite !len_app in *. change (len [close]) with 1 in *.
    unfold len in *. rewrite length_skipn. subst k.
    unfold MIN_HISTORY, ENTRY_LOOKBACK, EXIT_LOOKBACK in *. lia. }
  assert (Hg := generate_signal_windows st (firstn k older) (skipn k older)
                  window close).
  assert (Hp' : prices st
                = firstn k older ++ (skipn k older ++ window) ++ [close]).
  { rewrite Hp, Ho at 1. rewrite <- !app_assoc. reflexivity. }
  specialize (Hg Hp' Hn Hm).
  assert (Hne : window <> []).
  { intros ->. unfold EXIT_LOOKBACK in Hm. discriminate Hm. }
  split.
  - intros Hpos Hall. rewrite Hg.
    destruct (max_In (skipn k older ++ window)) as [h [-> _]].
    { intros E. apply app_eq_nil in E. tauto. }
    destruct (min_In window Hne) as [l [-> Hin]]. cbn [bind].
    rewrite Forall_forall in Hall. rewrite (Hall l Hin), Hpos. reflexivity.
  - intros Hall Hex. rewrite Hg.
    destruct (min_tie close window Hall Hex) as [l [-> Hl]].
    destruct (exists_last Hne) as [body [x Hx]].
    assert (Hxc : float_le close x = true).
    { rewrite Forall_forall in Hall. apply Hall.
      rewrite Hx. apply in_or_app. right. now left. }
    rewrite Hx, app_assoc.
    destruct (max_ends_high close (skipn k older ++ body) x Hxc)
      as [h [-> Hh]]. cbn [bind].
    rewrite Hh, (float_eq_not_lt_self l close Hl), !andb_false_r.
    reflexivity.
Qed.

Lemma generate_signal_exit_witness :
  generate_signal (mkState (repeat p11 20%nat ++ [p9]) 1 (Some BUY))
  = Ok (Some SELL)
  /\ generate_signal (mkState (repeat p11 20%nat ++ [p11]) 1 (Some BUY)) = Ok None
  /\ generate_signal (mkState (repeat p11 20%nat ++ [p11]) 0 None) = Ok None.
Proof.
  split; [|split].
  - apply (proj1 (generate_signal_exit
                    (mkState (repeat p11 20%nat ++ [p9]) 1 (Some BUY))
                    (repeat p11 10%nat) (repeat p11 10%nat) p9
                    eq_refl eq_refl ltac:(vm_compute; discriminate))).
    + reflexivity.
    + repeat constructor.
  - apply (proj2 (generate_signal_exit
                    (mkState (repeat p11 20%nat ++ [p11]) 1 (Some BUY))
                    (repeat p11 10%nat) (repeat p11 10%nat) p11
                    eq_refl eq_refl ltac:(vm_compute; discriminate))).
    + repeat constructor.
    + apply Exists_cons_hd. reflexivity.
  - apply (proj2 (generate_signal_exit
                    (mkState (repeat p11 20%nat ++ [p11]) 0 None)
                    (repeat p11 10%nat) (repeat p11 10%nat) p11
                    eq_refl eq_refl ltac:(vm_compute; discriminate))).
    + repeat constructor.
    + apply Exists_cons_hd. reflexivity.
Defined.

(** C3. With fewer than [MIN_HISTORY] prices the result is None, whatever
    the prices and the position are. *)
Theorem generate_signal_short_history (st : State) :
  len (prices st) < MIN_HISTORY -> generate_signal st = Ok None.
Proof.
  exact (generate_signal_too_short st).
Qed.

Lemma generate_signal_short_history_witness :
  generate_signal (mkState (repeat p10 19%nat ++ [p11]) 0 None) = Ok None.
Proof.
  apply generate_signal_short_history. vm_compute. reflexivity.
Defined.

(** [generate_signal] never raises: the length test keeps [prices[-1]],
    [max] and [min] away from an empty sequence. *)
Lemma generate_signal_total (st : State) :
  exists signal, generate_signal st = Ok signal.
Proof.
  destruct (Z.lt_ge_cases (len (prices st)) MIN_HISTORY) as [H|H].
  - exists None. now apply generate_signal_too_short.
  - destruct (history_split _ H) as (older & w1 & w2 & close & Hp & Hn & Hm).
    rewrite (generate_signal_windows st older w1 w2 close Hp Hn Hm).
    assert (Hne2 : w2 <> []).
    { intros ->. unfold EXIT_LOOKBACK in Hm. discriminate Hm. }
    destruct (max_In (w1 ++ w2)) as [h [-> _]].
    { intros E. apply app_eq_nil in E. tauto. }
    destruct (min_In w2 Hne2) as [l [-> _]]. cbn [bind].
    destruct (_ && _); [eauto|]. destruct (_ && _); eauto.
Qed.

(** BUY is only returned at position 0 and SELL only at position 1. *)
Lemma generate_signal_gated (st : State) (s : Signal) :
  generate_signal st = Ok (Some s) ->
  position st = match s with BUY => 0 | SELL => 1 end.
Proof.
  unfold generate_signal.
  destruct (len (prices st) <? MIN_HISTORY); [discriminate|].
  destruct (index _ _); [|discriminate].
  destruct (Py.max _); [|discriminate].
  destruct (Py.min _); [|discriminate]. cbn [bind].
  destruct (position st =? 0) eqn:E0; cbn [andb].
  - destruct (float_gt _ _).
    + intros [= <-]. now apply Z.eqb_eq.
    + apply Z.eqb_eq in E0. rewrite E0. cbn. discriminate.
  - destruct (position st =? 1) eqn:E1; cbn [andb]; [|discriminate].
    destruct (float_lt _ _); [|discriminate].
    intros [= <-]. now apply Z.eqb_eq.
Qed.

(** ** The loop *)

(** ** The loop *)

(** Appending never raises; below the cap nothing is dropped, at the cap
    the oldest price is. *)
Lemma append_price_cases (ps : list float) (price : float) :
  len ps <= 5000 ->
  exists ps',
    append_price ps price = Ok ps' /\ len ps' <= 5000 /\
    ((len ps < 5000 /\ ps' = ps ++ [price]) \/
     (len ps = 5000 /\
      exists oldest rest, ps = oldest :: rest /\ ps' = rest ++ [price])).
Proof.
  intros Hcap. unfold append_price, append.
  assert (Hlen : len (ps ++ [price]) = len ps + 1)
    by (rewrite len_app; reflexivity).
  destruct (Z.gtb_spec (len (ps ++ [price])) 5000) as [H|H].
  - destruct ps as [|oldest rest].
    + unfold len in H. simpl in H. lia.
    + exists (rest ++ [price]). simpl. split; [reflexivity|].
      assert (len (oldest :: rest) = len rest + 1) by (unfold len; simpl; lia).
      rewrite len_app. change (len [price]) with 1.
      split; [lia|]. right. split; [lia|]. eauto.
  - exists (ps ++ [price]). split; [reflexivity|].
    split; [lia|]. left. split; [lia|reflexivity].
Qed.

Lemma len_newest_5000 (l : list float) : len (newest_5000 l) <= 5000.
Proof. unfold newest_5000, len. rewrite length_skipn. lia. Qed.

Lemma newest_5000_short (l : list float) :
  len l <= 5000 -> newest_5000 l = l.
Proof.
  intros H. unfold newest_5000.
  replace (Z.to_nat (len l - 5000)) with 0%nat by lia. reflexivity.
Qed.

Lemma append_price_keeps_newest (ps : list float) (price : float) :
  len ps <= 5000 ->
  append_price ps price = Ok (newest_5000 (ps ++ [price])).
Proof.
  intros Hcap.
  destruct (append_price_cases ps price Hcap)
    as (ps' & -> & _ & [[Hlt ->]|(Heq & oldest & rest & -> & ->)]).
  - rewrite newest_5000_short; [reflexivity|].
    rewrite len_app. change (len [price]) with 1. lia.
  - unfold newest_5000. rewrite len_app. change (len [price]) with 1.
    rewrite Heq. reflexivity.
Qed.

(** Keeping the newest 5000 of a list whose front was already cut down to
    its newest 5000 is keeping the newest 5000 of the whole. *)
Lemma newest_5000_app (a b : list float) :
  newest_5000 (newest_5000 a ++ b) = newest_5000 (a ++ b).
Proof.
  unfold newest_5000. rewrite !len_app.
  unfold len at 1 3. rewrite length_skipn.
  unfold len. set (n := length a). set (m := length b).
  rewrite !skipn_app, length_skipn, skipn_skipn. fold n.
  f_equal.
  - f_equal. lia.
  - f_equal. lia.
Qed.

Lemma append_price_total (ps : list float) (price : float) :
  exists ps', append_price ps price = Ok ps'.
Proof.
  unfold append_price, append. destruct (_ >? _); [|eauto].
  destruct ps; simpl; eauto.
Qed.

(** What an iteration does to the state; it never raises. *)
Lemma tick_cases (inp : Tick) (st : State) :
  exists st' evs,
    tick inp st = Ok (st', evs) /\
    match answer inp with
    | Some price => append_price (prices st) price = Ok (prices st')
    | None => prices st' = prices st
    end /\
    ((position st' = position st /\ last_signal st' = last_signal st /\
      emitted evs = [])
     \/
     (exists s, is_new_signal s (last_signal st) = true /\
                position st' = position_for s /\
                last_signal st' = Some s /\ emitted evs = [s])).
Proof.
  unfold tick, fetch_price. destruct (answer inp) as [price|].
  2:{ exists st, [FetchErrorLine]. split; [reflexivity|]. auto. }
  destruct (append_price_total (prices st) price) as [ps Hps].
  rewrite Hps. cbn [bind].
  destruct (generate_signal_total (mkState ps (position st) (last_signal st)))
    as [signal ->]. cbn [bind].
  unfold on_signal. destruct signal as [s|]; cbn [last_signal].
  - destruct (is_new_signal s (last_signal st)) eqn:E; cbn [bind fst snd].
    + eexists _, _. split; [reflexivity|]. split; [reflexivity|].
      right. exists s. repeat split; auto.
      cbn. unfold send_signal_notification.
      destruct (notify_ok inp); reflexivity.
    + eexists _, _. split; [reflexivity|]. split; [reflexivity|]. left. auto.
  - eexists _, _. split; [reflexivity|]. split; [reflexivity|]. left. auto.
Qed.

Lemma emitted_app (a b : list Event) :
  emitted (a ++ b) = emitted a ++ emitted b.
Proof.
  induction a as [|e a IH]; [reflexivity|].
  destruct e; simpl; rewrite IH; reflexivity.
Qed.

(** A property of the state that every iteration preserves holds after any
    number of iterations, none of which raises. *)
Lemma run_invariant (P : State -> Prop) :
  (forall inp st, P st ->
                  exists st' evs, tick inp st = Ok (st', evs) /\ P st') ->
  forall inps st, P st ->
                  exists st' evs, run inps st = Ok (st', evs) /\ P st'.
Proof.
  intros Hstep. induction inps as [|inp rest IH]; intros st HP; simpl.
  - eauto.
  - destruct (Hstep inp st HP) as (st1 & e1 & -> & HP1). cbn [bind fst snd].
    destruct (IH st1 HP1) as (st2 & e2 & -> & HP2). cbn [bind fst snd].
    eauto.
Qed.

(** After any number of iterations the history is the newest 5000 of the
    prices it held and obtained, in their order. *)
Lemma run_prices (inps : list Tick) :
  forall st,
    len (prices st) <= 5000 ->
    exists st' evs,
      run inps st = Ok (st', evs) /\
      prices st' = newest_5000 (prices st ++ fetched_prices inps).
Proof.
  induction inps as [|inp rest IH]; intros st Hcap; simpl.
  - exists st, []. split; [reflexivity|].
    rewrite app_nil_r. symmetry. now apply newest_5000_short.
  - destruct (tick_cases inp st) as (st1 & e1 & -> & Hps & _).
    cbn [bind fst snd].
    destruct (answer inp) as [price|].
    + rewrite (append_price_keeps_newest _ price Hcap) in Hps.
      injection Hps as Hps.
      assert (Hcap1 : len (prices st1) <= 5000).
      { rewrite <- Hps. apply len_newest_5000. }
      destruct (IH st1 Hcap1) as (st2 & e2 & -> & H2). cbn [bind fst snd].
      eexists _, _. split; [reflexivity|].
      rewrite H2, <- Hps, newest_5000_app, <- app_assoc. reflexivity.
    + rewrite <- Hps in Hcap.
      destruct (IH st1 Hcap) as (st2 & e2 & -> & H2). cbn [bind fst snd].
      eexists _, _. split; [reflexivity|].
      rewrite H2, Hps. reflexivity.
Qed.

(** C4. After any sequence of iterations the program has not raised and
    the history holds the newest 5000 of the prices obtained so far, in the
    order they arrived, so at most 5000 of them.  The next append yields
    again at most 5000 prices: below the cap it only adds the new price at
    the end, at the cap it drops exactly the oldest price and keeps the
    others in order before the new one. *)
Theorem price_history_bounded_fifo (inps : list Tick) (price : float) :
  exists st evs ps',
    run inps initial_state = Ok (st, evs) /\
    prices st = newest_5000 (fetched_prices inps) /\
    len (prices st) <= 5000 /\
    append_price (prices st) price = Ok ps' /\
    len ps' <= 5000 /\
    ((len (prices st) < 5000 /\ ps' = prices st ++ [price]) \/
     (len (prices st) = 5000 /\
      exists oldest rest,
        prices st = oldest :: rest /\ ps' = rest ++ [price])).
Proof.
  destruct (run_prices inps initial_state) as (st & evs & Hrun & Hps).
  { unfold len. simpl. lia. }
  simpl in Hps.
  assert (Hcap : len (prices st) <= 5000).
  { rewrite Hps. apply len_newest_5000. }
  destruct (append_price_cases (prices st) price Hcap) as (ps' & Hap & Hle & H).
  exists st, evs, ps'. auto 10.
Qed.

(** The eviction at work on a full history. *)
Example append_price_at_cap :
  append_price (repeat p10 5000%nat) p11
  = Ok (repeat p10 4999%nat ++ [p11]).
Proof. vm_compute. reflexivity. Qed.

(** C6. A candidate signal is accepted exactly when it differs from the
    last emitted signal, which may be None; BUY after BUY is refused and SELL
    after BUY is accepted.  In the loop, the signal block is printed exactly
    for the accepted candidates. *)
Theorem debouncer_accepts_iff_different (c : Signal) (last : option Signal) :
  (is_new_signal c last = true <-> Some c <> last)
  /\ is_new_signal BUY (Some BUY) = false
  /\ is_new_signal SELL (Some BUY) = true
  /\ (forall ok price st,
         last_signal st = last ->
         exists st' evs,
           on_signal (Some c) ok price st = Ok (st', evs) /\
           emitted evs = if is_new_signal c last then [c] else []).
Proof.
  split; [|split; [reflexivity|split; [reflexivity|]]].
  - destruct last as [l|]; simpl.
    + destruct c, l; simpl; intuition congruence.
    + intuition congruence.
  - intros ok price st <-. unfold on_signal.
    destruct (is_new_signal c (last_signal st)).
    + eexists _, _. split; [reflexivity|].
      simpl. destruct ok; reflexivity.
    + eexists _, _. split; reflexivity.
Qed.

Lemma debouncer_accepts_iff_different_witness :
  exists st' evs,
    on_signal (Some SELL) true p9 (mkState [] 1 (Some BUY)) = Ok (st', evs)
    /\ emitted evs = [SELL].
Proof.
  apply (proj2 (proj2 (proj2 (debouncer_accepts_iff_different
                                SELL (Some BUY))))
               true p9 (mkState [] 1 (Some BUY)) eq_refl).
Defined.

(** An emitted signal list that starts with something other than the last
    signal of the state, and alternates. *)
Lemma run_alternates (inps : list Tick) :
  forall st,
    exists st' evs,
      run inps st = Ok (st', evs) /\
      alternating (emitted evs) = true /\
      match emitted evs with
      | [] => True
      | s :: _ => is_new_signal s (last_signal st) = true
      end.
Proof.
  induction inps as [|inp rest IH]; intros st; simpl.
  - exists st, []. repeat split.
  - destruct (tick_cases inp st) as (st1 & e1 & -> & _ & Hcase).
    cbn [bind fst snd].
    destruct (IH st1) as (st2 & e2 & -> & Halt & Hhead). cbn [bind fst snd].
    exists st2, (e1 ++ e2). split; [reflexivity|].
    rewrite emitted_app.
    destruct Hcase as [(_ & Hlast & ->)|(s & Hnew & _ & Hlast & ->)]; simpl.
    + rewrite <- Hlast. auto.
    + split; [|exact Hnew]. rewrite Halt, andb_true_r.
      destruct (emitted e2) as [|b more]; [reflexivity|].
      rewrite Hlast in Hhead. simpl in Hhead.
      destruct b, s; simpl in *; congruence.
Qed.

(** C7. Whatever the price source and the notifier do, the loop does not
    raise and the signals it announces alternate: none is followed by the
    same signal. *)
Theorem emitted_signals_alternate (inps : list Tick) :
  exists st evs,
    run inps initial_state = Ok (st, evs) /\
    alternating (emitted evs) = true.
Proof.
  destruct (run_alternates inps initial_state) as (st & evs & H & Ha & _).
  eauto.
Qed.

(** C8. An iteration whose price request fails leaves the history, the
    position and the last signal as they were; it only prints the error. *)
Theorem failed_fetch_changes_nothing (inp : Tick) (st : State) :
  answer inp = None -> tick inp st = Ok (st, [FetchErrorLine]).
Proof.
  intros H. unfold tick, fetch_price. rewrite H. reflexivity.
Qed.

Lemma failed_fetch_changes_nothing_witness :
  tick (mkTick None true) (mkState (repeat p10 20%nat) 1 (Some BUY))
  = Ok (mkState (repeat p10 20%nat) 1 (Some BUY), [FetchErrorLine]).
Proof.
  apply failed_fetch_changes_nothing. reflexivity.
Defined.

(** C9. The outcome of the notification does not reach the state.  For an
    accepted signal the new position and last signal are in place whether
    the notification is sent or fails, and only the printed line differs;
    an iteration ends normally, in the same state, in both cases. *)
Theorem notification_failure_keeps_transition (s : Signal) (price : float)
        (a : option float) (st : State) :
  (is_new_signal s (last_signal st) = true ->
   forall ok,
     on_signal (Some s) ok price st
     = Ok (mkState (prices st) (position_for s) (Some s),
           SignalBlock s price (position_for s)
                       :: send_signal_notification ok s price))
  /\
  (exists st' evs_sent evs_failed,
      tick (mkTick a true) st = Ok (st', evs_sent) /\
      tick (mkTick a false) st = Ok (st', evs_failed)).
Proof.
  split.
  - intros Hnew ok. unfold on_signal. rewrite Hnew. destruct s; reflexivity.
  - unfold tick, fetch_price. cbn [answer notify_ok].
    destruct a as [p|]; [|eauto].
    destruct (append_price_total (prices st) p) as [ps ->]. cbn [bind].
    destruct (generate_signal_total
                (mkState ps (position st) (last_signal st)))
      as [signal ->]. cbn [bind].
    unfold on_signal. destruct signal as [s'|]; [|cbn; eauto].
    destruct (is_new_signal s' _); cbn; eauto.
Qed.

Lemma notification_failure_keeps_transition_witness :
  on_signal (Some BUY) false p11 (mkState [] 0 None)
  = Ok (mkState [] 1 (Some BUY), [SignalBlock BUY p11 1; NotifyError]).
Proof.
  apply (proj1 (notification_failure_keeps_transition
                  BUY p11 None (mkState [] 0 None)) eq_refl false).
Defined.

Lemma tick_consistent (inp : Tick) (st : State) :
  consistent st ->
  exists st' evs, tick inp st = Ok (st', evs) /\ consistent st'.
Proof.
  intros Hc.
  destruct (tick_cases inp st) as (st' & evs & Ht & _ & Hcase).
  exists st', evs. split; [exact Ht|].
  unfold consistent in *.
  destruct Hcase as [(-> & -> & _)|(s & _ & -> & -> & _)]; [exact Hc|].
  destruct s; simpl; intuition congruence.
Qed.

(** C10. After any number of iterations from the initial state, none of
    which raises, the position is 1 exactly when the last signal is BUY,
    and 0 exactly when the last signal is SELL or None. *)
Theorem position_matches_last_signal (inps : list Tick) :
  exists st evs,
    run inps initial_state = Ok (st, evs) /\
    (position st = 1 <-> last_signal st = Some BUY) /\
    (position st = 0 <->
     (last_signal st = Some SELL \/ last_signal st = None)).
Proof.
  apply (run_invariant consistent tick_consistent inps initial_state).
  unfold consistent. simpl. intuition congruence.
Qed.

(** ** The scenarios of the specification *)

(** Twenty prices of 10 and then 11: BUY is announced and the position
    becomes long. *)
Example scenario_enter :
  exists st evs,
    run (repeat (got p10) 20 ++ [got p11]) initial_state = Ok (st, evs) /\
    emitted evs = [BUY] /\ position st = 1 /\ last_signal st = Some BUY.
Proof. eexists _, _. vm_compute. repeat split. Qed.

(** Ten more prices of 11 and then 9: SELL is announced and the position
    is flat again. *)
Example scenario_exit :
  exists st evs,
    run (repeat (got p10) 20 ++ [got p11] ++ repeat (got p11) 10 ++ [got p9])
        initial_state = Ok (st, evs) /\
    emitted evs = [BUY; SELL] /\ position st = 0 /\
    last_signal st = Some SELL.
Proof. eexists _, _. vm_compute. repeat split. Qed.

(** The sample prices are binary64 numbers. *)
Example samples_are_binary64 :
  forallb (valid_binary 53 1024) [p9; p10; p11] = true.
Proof. reflexivity. Qed.

(** * Further properties of the program *)

(** ** [max] and [min] on windows *)

Section ExtremumFacts.

Variable c : float.

(** What is above the result of [max] is above every item, NaN apart. *)
Lemma extremum_gt_below (rest : list float) :
  forall best,
    float_gt c (extremum float_gt best rest) = true ->
    Forall (fun x => x = S754_nan \/ float_gt c x = true) (best :: rest).
Proof.
  induction rest as [|x rest IH]; intros best H; simpl in H.
  - constructor; [now right|constructor].
  - specialize (IH _ H). inversion IH as [|? ? Hb Hrest]; subst.
    destruct (float_gt x best) eqn:G.
    + destruct Hb as [->|Hb].
      * rewrite float_gt_nan_l in G. discriminate.
      * constructor; [right; eapply float_gt_trans; eauto|].
        constructor; auto.
    + destruct Hb as [->|Hb].
      * clear - H. exfalso. revert H.
        assert (E : extremum float_gt S754_nan rest = S754_nan).
        { induction rest as [|y rest IH]; simpl; [reflexivity|].
          rewrite float_gt_nan_r. exact IH. }
        rewrite E, float_gt_nan_r. discriminate.
      * constructor; [now right|]. constructor; [|exact Hrest].
        destruct (float_nan_dec x) as [->|Hx]; [now left|right].
        eapply float_gt_not_replaced; eauto.
Qed.

Lemma extremum_lt_above (rest : list float) :
  forall best,
    float_lt c (extremum float_lt best rest) = true ->
    Forall (fun x => x = S754_nan \/ float_lt c x = true) (best :: rest).
Proof.
  induction rest as [|x rest IH]; intros best H; simpl in H.
  - constructor; [now right|constructor].
  - specialize (IH _ H). inversion IH as [|? ? Hb Hrest]; subst.
    destruct (float_lt x best) eqn:G.
    + destruct Hb as [->|Hb].
      * rewrite float_lt_nan_l in G. discriminate.
      * constructor; [right; eapply float_lt_trans; eauto|].
        constructor; auto.
    + destruct Hb as [->|Hb].
      * clear - H. exfalso. revert H.
        assert (E : extremum float_lt S754_nan rest = S754_nan).
        { induction rest as [|y rest IH]; simpl; [reflexivity|].
          rewrite float_lt_nan_r. exact IH. }
        rewrite E, float_lt_nan_r. discriminate.
      * constructor; [now right|]. constructor; [|exact Hrest].
        destruct (float_nan_dec x) as [->|Hx]; [now left|right].
        eapply float_lt_not_replaced; eauto.
Qed.

End ExtremumFacts.

(** A running extremum that starts at NaN stays NaN: nothing compares
    better than NaN. *)
Lemma extremum_from_nan (better : float -> float -> bool) (rest : list float) :
  (forall x, better x S754_nan = false) ->
  extremum better S754_nan rest = S754_nan.
Proof.
  intros Hb. induction rest as [|y rest IH]; simpl; [reflexivity|].
  rewrite Hb. exact IH.
Qed.

(** A running extremum over copies of its start stays where it is. *)
Lemma extremum_constant (better : float -> float -> bool) (p : float)
      (rest : list float) :
  Forall (eq p) rest -> extremum better p rest = p.
Proof.
  induction 1 as [|x rest <- _ IH]; simpl; [reflexivity|].
  destruct (better p p); exact IH.
Qed.

Lemma extremum_gt_upper (rest : list float) :
  forall best,
    best <> S754_nan ->
    Forall (fun x => x <> S754_nan) rest ->
    extremum float_gt best rest <> S754_nan /\
    Forall (fun x => float_le x (extremum float_gt best rest) = true)
           (best :: rest).
Proof.
  induction rest as [|x rest IH]; intros best Hb Hall; simpl.
  - split; [exact Hb|]. constructor; [now apply float_le_refl|constructor].
  - inversion Hall as [|? ? Hx Hrest]; subst.
    set (b' := if float_gt x best then x else best).
    assert (Hb' : b' <> S754_nan) by (subst b'; destruct (float_gt x best); auto).
    destruct (IH b' Hb' Hrest) as [Hr Hle].
    inversion Hle as [|? ? Hb'r Hrestr]; subst.
    split; [exact Hr|].
    assert (Hbb' : float_le best b' = true /\ float_le x b' = true).
    { subst b'. destruct (float_gt x best) eqn:G.
      - split; [now apply float_le_of_gt|now apply float_le_refl].
      - split; [now apply float_le_refl|now apply float_le_of_not_gt]. }
    destruct Hbb' as [H1 H2].
    constructor; [eapply float_le_trans; eauto|].
    constructor; [eapply float_le_trans; eauto|exact Hrestr].
Qed.

Lemma extremum_lt_lower (rest : list float) :
  forall best,
    best <> S754_nan ->
    Forall (fun x => x <> S754_nan) rest ->
    extremum float_lt best rest <> S754_nan /\
    Forall (fun x => float_le (extremum float_lt best rest) x = true)
           (best :: rest).
Proof.
  induction rest as [|x rest IH]; intros best Hb Hall; simpl.
  - split; [exact Hb|]. constructor; [now apply float_le_refl|constructor].
  - inversion Hall as [|? ? Hx Hrest]; subst.
    set (b' := if float_lt x best then x else best).
    assert (Hb' : b' <> S754_nan) by (subst b'; destruct (float_lt x best); auto).
    destruct (IH b' Hb' Hrest) as [Hr Hle].
    inversion Hle as [|? ? Hb'r Hrestr]; subst.
    split; [exact Hr|].
    assert (Hbb' : float_le b' best = true /\ float_le b' x = true).
    { subst b'. destruct (float_lt x best) eqn:G.
      - split; [now apply float_le_of_lt|now apply float_le_refl].
      - split; [now apply float_le_refl|now apply float_le_of_not_lt]. }
    destruct Hbb' as [H1 H2].
    constructor; [eapply float_le_trans; eauto|].
    constructor; [eapply float_le_trans; eauto|exact Hrestr].
Qed.

(** X1. On a window without NaN, [max] returns one of its prices that none
    of them exceeds, and [min] one of its prices that none of them is
    below; on an empty window both raise [ValueError]. *)
Theorem max_min_of_window (w : list float) :
  Forall (fun x => x <> S754_nan) w ->
  (w = [] /\ Py.max w = Raise ValueError /\ Py.min w = Raise ValueError)
  \/
  (exists h l,
      Py.max w = Ok h /\ In h w /\
      Forall (fun x => float_le x h = true) w /\
      Py.min w = Ok l /\ In l w /\
      Forall (fun x => float_le l x = true) w).
Proof.
  intros Hall. destruct w as [|x rest]; [left; auto|right].
  inversion Hall as [|? ? Hx Hrest]; subst.
  exists (extremum float_gt x rest), (extremum float_lt x rest).
  split; [reflexivity|]. split; [apply extremum_In|].
  split; [apply extremum_gt_upper; auto|].
  split; [reflexivity|]. split; [apply extremum_In|].
  apply extremum_lt_lower; auto.
Qed.

Lemma max_min_of_window_witness :
  exists h l,
    Py.max [p10; p11; p9] = Ok h /\ In h [p10; p11; p9] /\
    Forall (fun x => float_le x h = true) [p10; p11; p9] /\
    Py.min [p10; p11; p9] = Ok l /\ In l [p10; p11; p9] /\
    Forall (fun x => float_le l x = true) [p10; p11; p9].
Proof.
  destruct (max_min_of_window [p10; p11; p9]) as [[E _]|H].
  - repeat constructor; discriminate.
  - discriminate E.
  - exact H.
Defined.

(** ** More about [generate_signal] *)

(** The function as a comparison of the close with the entry window, and
    with the exit window. *)
Lemma generate_signal_by_entry_window (st : State) (older window : list float)
      (close : float) :
  prices st = older ++ window ++ [close] ->
  len window = ENTRY_LOOKBACK ->
  skipn 10 window <> [] /\
  generate_signal st =
  (recent_high <- Py.max window ;;
   recent_low <- Py.min (skipn 10 window) ;;
   if (position st =? 0) && float_gt close recent_high then Ok (Some BUY)
   else if (position st =? 1) && float_lt close recent_low then Ok (Some SELL)
   else Ok None).
Proof.
  intros Hp Hn.
  assert (Hw : window = firstn 10 window ++ skipn 10 window)
    by (symmetry; apply firstn_skipn).
  assert (Hm : len (skipn 10 window) = EXIT_LOOKBACK).
  { unfold len in *. rewrite length_skipn.
    unfold ENTRY_LOOKBACK, EXIT_LOOKBACK in *. lia. }
  split.
  - intros E. rewrite E in Hm. discriminate Hm.
  - assert (Hg := generate_signal_windows st older (firstn 10 window)
                    (skipn 10 window) close).
    rewrite <- Hw in Hg. exact (Hg Hp Hn Hm).
Qed.

Lemma generate_signal_by_exit_window (st : State) (older window : list float)
      (close : float) :
  prices st = older ++ window ++ [close] ->
  len window = EXIT_LOOKBACK ->
  MIN_HISTORY <= len (prices st) ->
  exists before,
    generate_signal st =
    (recent_high <- Py.max (before ++ window) ;;
     recent_low <- Py.min window ;;
     if (position st =? 0) && float_gt close recent_high then Ok (Some BUY)
     else if (position st =? 1) && float_lt close recent_low
          then Ok (Some SELL)
          else Ok None).
Proof.
  intros Hp Hm Hlen.
  set (k := (length older - 10)%nat).
  assert (Ho : older = firstn k older ++ skipn k older)
    by (symmetry; apply firstn_skipn).
  assert (Hn : len (skipn k older ++ window) = ENTRY_LOOKBACK).
  { rewrite Hp in Hlen. rewrite !len_app in *. change (len [close]) with 1 in *.
    unfold len in *. rewrite length_skipn. subst k.
    unfold MIN_HISTORY, ENTRY_LOOKBACK, EXIT_LOOKBACK in *. lia. }
  exists (skipn k older).
  apply (generate_signal_windows st (firstn k older) (skipn k older)
                                 window close); auto.
  rewrite Hp, Ho at 1. rewrite <- !app_assoc. reflexivity.
Qed.

Lemma nonempty_window (w : list float) (k : Z) :
  len w = k -> 0 < k -> w <> [].
Proof. intros H Hk ->. unfold len in H. simpl in H. lia. Qed.

(** X2. [generate_signal] never raises: whatever the history (the empty one
    included) and the position, [prices[-1]], [max] and [min] are only
    reached with enough prices, and the call returns None, BUY or SELL. *)
Theorem generate_signal_never_raises (st : State) :
  exists signal, generate_signal st = Ok signal.
Proof. exact (generate_signal_total st). Qed.

Lemma generate_signal_buy_sound (st : State) :
  generate_signal st = Ok (Some BUY) ->
  position st = 0 /\
  exists older window close,
    prices st = older ++ window ++ [close] /\
    len window = ENTRY_LOOKBACK /\
    Forall (fun x => x = S754_nan \/ float_gt close x = true) window.
Proof.
  intros H. split; [exact (generate_signal_gated st BUY H)|].
  destruct (Z.lt_ge_cases (len (prices st)) MIN_HISTORY) as [Hs|Hs].
  { rewrite (generate_signal_too_short st Hs) in H. discriminate. }
  destruct (history_split _ Hs) as (older & w1 & w2 & close & Hp & Hn & Hm).
  exists older, (w1 ++ w2), close. split; [exact Hp|]. split; [exact Hn|].
  rewrite (generate_signal_windows st older w1 w2 close Hp Hn Hm) in H.
  destruct (w1 ++ w2) as [|x rest] eqn:Ew; [discriminate H|].
  cbn [Py.max bind] in H.
  destruct (Py.min w2) as [l|]; [|discriminate H]. cbn [bind] in H.
  apply extremum_gt_below.
  destruct (float_gt close (extremum float_gt x rest)); [reflexivity|].
  rewrite andb_false_r in H.
  destruct (_ && _) in H; discriminate H.
Qed.

(** X3. When [generate_signal] returns BUY, the position is 0, the history
    ends with 20 prices followed by the close, and the close is strictly
    above each of these 20 prices that is not NaN. *)
Theorem buy_means_breakout (st : State) :
  generate_signal st = Ok (Some BUY) ->
  position st = 0 /\
  exists older window close,
    prices st = older ++ window ++ [close] /\
    len window = ENTRY_LOOKBACK /\
    Forall (fun x => x = S754_nan \/ float_gt close x = true) window.
Proof. exact (generate_signal_buy_sound st). Qed.

Lemma buy_means_breakout_witness :
  position (mkState (repeat p10 20%nat ++ [p11]) 0 None) = 0 /\
  exists older window close,
    repeat p10 20%nat ++ [p11] = older ++ window ++ [close] /\
    len window = ENTRY_LOOKBACK /\
    Forall (fun x => x = S754_nan \/ float_gt close x = true) window.
Proof.
  apply (buy_means_breakout (mkState (repeat p10 20%nat ++ [p11]) 0 None)).
  vm_compute. reflexivity.
Defined.

Lemma generate_signal_sell_sound (st : State) :
  generate_signal st = Ok (Some SELL) ->
  position st = 1 /\ MIN_HISTORY <= len (prices st) /\
  exists older window close,
    prices st = older ++ window ++ [close] /\
    len window = EXIT_LOOKBACK /\
    Forall (fun x => x = S754_nan \/ float_lt close x = true) window.
Proof.
  intros H. split; [exact (generate_signal_gated st SELL H)|].
  destruct (Z.lt_ge_cases (len (prices st)) MIN_HISTORY) as [Hs|Hs].
  { rewrite (generate_signal_too_short st Hs) in H. discriminate. }
  split; [exact Hs|].
  destruct (history_split _ Hs) as (older & w1 & w2 & close & Hp & Hn & Hm).
  exists (older ++ w1), w2, close.
  split; [rewrite Hp, <- !app_assoc; reflexivity|]. split; [exact Hm|].
  rewrite (generate_signal_windows st older w1 w2 close Hp Hn Hm) in H.
  destruct (Py.max (w1 ++ w2)) as [h|]; [|discriminate H]. cbn [bind] in H.
  destruct w2 as [|x rest]; [discriminate H|].
  cbn [Py.min bind] in H.
  apply extremum_lt_above.
  destruct (float_lt close (extremum float_lt x rest)); [reflexivity|].
  rewrite andb_false_r in H.
  destruct (_ && _) in H; discriminate H.
Qed.

(** X4. When [generate_signal] returns SELL, the position is 1, the history
    has at least 21 prices and ends with 10 prices followed by the close, and
    the close is strictly below each of these 10 prices that is not NaN. *)
Theorem sell_means_breakdown (st : State) :
  generate_signal st = Ok (Some SELL) ->
  position st = 1 /\ MIN_HISTORY <= len (prices st) /\
  exists older window close,
    prices st = older ++ window ++ [close] /\
    len window = EXIT_LOOKBACK /\
    Forall (fun x => x = S754_nan \/ float_lt close x = true) window.
Proof. exact (generate_signal_sell_sound st). Qed.

Lemma sell_means_breakdown_witness :
  position (mkState (repeat p11 20%nat ++ [p9]) 1 (Some BUY)) = 1 /\
  MIN_HISTORY <= len (repeat p11 20%nat ++ [p9]) /\
  exists older window close,
    repeat p11 20%nat ++ [p9] = older ++ window ++ [close] /\
    len window = EXIT_LOOKBACK /\
    Forall (fun x => x = S754_nan \/ float_lt close x = true) window.
Proof.
  apply (sell_means_breakdown
           (mkState (repeat p11 20%nat ++ [p9]) 1 (Some BUY))).
  vm_compute. reflexivity.
Defined.

(** X5. Only the newest 21 prices count: with at least 21 prices in the
    history, the result is the one obtained on the last 21 alone, and it
    does not depend on [last_signal]. *)
Theorem generate_signal_looks_at_newest (st : State)
        (older recent : list float) (last : option Signal) :
  prices st = older ++ recent ->
  len recent = MIN_HISTORY ->
  generate_signal st = generate_signal (mkState recent (position st) last).
Proof.
  intros Hp Hr.
  destruct (history_split recent) as (o & w1 & w2 & close & Hrec & Hn & Hm).
  { rewrite Hr. apply Z.le_refl. }
  rewrite (generate_signal_windows st (older ++ o) w1 w2 close); auto.
  - rewrite (generate_signal_windows (mkState recent (position st) last)
                                     o w1 w2 close); auto.
  - rewrite Hp, Hrec. apply app_assoc.
Qed.

Lemma generate_signal_looks_at_newest_witness :
  generate_signal (mkState (repeat p9 100%nat ++ repeat p10 20%nat ++ [p11])
                           0 (Some SELL))
  = generate_signal (mkState (repeat p10 20%nat ++ [p11]) 0 None).
Proof.
  apply (generate_signal_looks_at_newest
           (mkState (repeat p9 100%nat ++ repeat p10 20%nat ++ [p11])
                    0 (Some SELL))
           (repeat p9 100%nat) (repeat p10 20%nat ++ [p11]) None).
  - reflexivity.
  - reflexivity.
Defined.

(** X6. A NaN price never triggers a signal when it arrives: if the last
    price of the history is NaN the result is None, whatever the position
    and the earlier prices. *)
Theorem nan_close_gives_no_signal (st : State) (body : list float) :
  prices st = body ++ [S754_nan] -> generate_signal st = Ok None.
Proof.
  intros Hp.
  destruct (Z.lt_ge_cases (len (prices st)) MIN_HISTORY) as [Hs|Hs].
  { exact (generate_signal_too_short st Hs). }
  destruct (history_split _ Hs) as (older & w1 & w2 & close & Hq & Hn & Hm).
  assert (close = S754_nan) as ->.
  { rewrite Hp, app_assoc in Hq. apply app_inj_tail in Hq.
    symmetry. apply Hq. }
  rewrite (generate_signal_windows st older w1 w2 _ Hq Hn Hm).
  destruct (max_In (w1 ++ w2)) as [h [-> _]].
  { apply (nonempty_window _ _ Hn). reflexivity. }
  destruct (min_In w2) as [l [-> _]].
  { apply (nonempty_window _ _ Hm). reflexivity. }
  cbn [bind]. rewrite float_gt_nan_l, float_lt_nan_l, !andb_false_r.
  reflexivity.
Qed.

Lemma nan_close_gives_no_signal_witness :
  generate_signal (mkState (repeat p10 20%nat ++ [S754_nan]) 0 None)
  = Ok None.
Proof.
  apply (nan_close_gives_no_signal
           (mkState (repeat p10 20%nat ++ [S754_nan]) 0 None)
           (repeat p10 20%nat)).
  reflexivity.
Defined.

(** X7. A NaN as the oldest price of the entry window hides every
    breakout: [max] starts at NaN, nothing compares greater than NaN, and
    BUY is not returned however high the close is. *)
Theorem nan_at_entry_window_head_blocks_buy (st : State)
        (older window : list float) (close : float) :
  prices st = older ++ (S754_nan :: window) ++ [close] ->
  len (S754_nan :: window) = ENTRY_LOOKBACK ->
  generate_signal st <> Ok (Some BUY).
Proof.
  intros Hp Hn.
  destruct (generate_signal_by_entry_window st older _ close Hp Hn)
    as [Hne ->].
  cbn [Py.max bind].
  rewrite (extremum_from_nan float_gt window float_gt_nan_r).
  destruct (min_In _ Hne) as [l [-> _]]. cbn [bind].
  rewrite float_gt_nan_r, andb_false_r.
  destruct (_ && _); discriminate.
Qed.

Lemma nan_at_entry_window_head_blocks_buy_witness :
  generate_signal
    (mkState ((S754_nan :: repeat p10 19%nat) ++ [p11]) 0 None)
  <> Ok (Some BUY).
Proof.
  apply (nan_at_entry_window_head_blocks_buy
           (mkState ((S754_nan :: repeat p10 19%nat) ++ [p11]) 0 None)
           [] (repeat p10 19%nat) p11).
  - reflexivity.
  - reflexivity.
Defined.

(** X8. A NaN as the oldest price of the exit window hides every
    breakdown: SELL is not returned however low the close is. *)
Theorem nan_at_exit_window_head_blocks_sell (st : State)
        (older window : list float) (close : float) :
  prices st = older ++ (S754_nan :: window) ++ [close] ->
  len (S754_nan :: window) = EXIT_LOOKBACK ->
  generate_signal st <> Ok (Some SELL).
Proof.
  intros Hp Hm.
  destruct (Z.lt_ge_cases (len (prices st)) MIN_HISTORY) as [Hs|Hs].
  { rewrite (generate_signal_too_short st Hs). discriminate. }
  destruct (generate_signal_by_exit_window st older _ close Hp Hm Hs)
    as [before ->].
  destruct (max_In (before ++ S754_nan :: window)) as [h [-> _]].
  { intros E. apply app_eq_nil in E. destruct E as [_ E]. discriminate E. }
  cbn [Py.min bind].
  rewrite (extremum_from_nan float_lt window float_lt_nan_r).
  rewrite float_lt_nan_r, andb_false_r.
  destruct (_ && _); discriminate.
Qed.

Lemma nan_at_exit_window_head_blocks_sell_witness :
  generate_signal
    (mkState (repeat p11 10%nat ++ (S754_nan :: repeat p11 9%nat) ++ [p9])
             1 (Some BUY))
  <> Ok (Some SELL).
Proof.
  apply (nan_at_exit_window_head_blocks_sell
           (mkState (repeat p11 10%nat ++ (S754_nan :: repeat p11 9%nat)
                            ++ [p9]) 1 (Some BUY))
           (repeat p11 10%nat) (repeat p11 9%nat) p9).
  - reflexivity.
  - reflexivity.
Defined.

(** A history made of one price gives no signal. *)
Lemma generate_signal_flat_history (st : State) (p : float) :
  Forall (eq p) (prices st) -> generate_signal st = Ok None.
Proof.
  intros Hall.
  destruct (Z.lt_ge_cases (len (prices st)) MIN_HISTORY) as [Hs|Hs].
  { exact (generate_signal_too_short st Hs). }
  destruct (history_split _ Hs) as (older & w1 & w2 & close & Hp & Hn & Hm).
  rewrite (generate_signal_windows st older w1 w2 close Hp Hn Hm).
  rewrite Hp in Hall.
  apply Forall_app in Hall. destruct Hall as [_ Hall].
  apply Forall_app in Hall. destruct Hall as [Hw Hc].
  apply Forall_inv in Hc. subst close.
  assert (Hw2 : Forall (eq p) w2).
  { apply Forall_app in Hw. apply Hw. }
  destruct (w1 ++ w2) as [|x rest]; [discriminate Hn|].
  destruct w2 as [|y rest2]; [discriminate Hm|].
  pose proof (Forall_inv Hw) as Hx. pose proof (Forall_inv_tail Hw) as Hrest.
  pose proof (Forall_inv Hw2) as Hy.
  pose proof (Forall_inv_tail Hw2) as Hrest2.
  subst x y.
  cbn [Py.max Py.min bind].
  rewrite !extremum_constant by assumption.
  rewrite float_gt_irrefl, float_lt_irrefl, !andb_false_r. reflexivity.
Qed.

(** ** More about one iteration *)

(** The iteration, step by step. *)
Lemma tick_unrolled (inp : Tick) (st : State) :
  match answer inp with
  | None => tick inp st = Ok (st, [FetchErrorLine])
  | Some price =>
      exists ps signal,
        append_price (prices st) price = Ok ps /\
        generate_signal (mkState ps (position st) (last_signal st))
        = Ok signal /\
        tick inp st =
        Ok (match signal with
            | Some s =>
                if is_new_signal s (last_signal st)
                then (mkState ps (position_for s) (Some s),
                      PriceLine price (len ps)
                        :: SignalBlock s price (position_for s)
                        :: send_signal_notification (notify_ok inp) s price)
                else (mkState ps (position st) (last_signal st),
                      [PriceLine price (len ps)])
            | None => (mkState ps (position st) (last_signal st),
                       [PriceLine price (len ps)])
            end)
  end.
Proof.
  unfold tick, fetch_price. destruct (answer inp) as [price|]; [|reflexivity].
  destruct (append_price_total (prices st) price) as [ps Hps].
  destruct (generate_signal_total (mkState ps (position st) (last_signal st)))
    as [signal Hg].
  exists ps, signal. split; [exact Hps|]. split; [exact Hg|].
  rewrite Hps. cbn [bind]. rewrite Hg. cbn [bind].
  unfold on_signal. destruct signal as [s|]; cbn [last_signal prices].
  - destruct (is_new_signal s (last_signal st)); [|reflexivity].
    destruct s; reflexivity.
  - reflexivity.
Qed.

Lemma emitted_notification (ok : bool) (s : Signal) (price : float) :
  emitted (send_signal_notification ok s price) = [].
Proof. destruct ok; reflexivity. Qed.

(** What an iteration announces, and from which position. *)
Lemma tick_step (inp : Tick) (st : State) :
  exists st' evs,
    tick inp st = Ok (st', evs) /\
    ((position st' = position st /\ last_signal st' = last_signal st /\
      emitted evs = [])
     \/
     (exists s, is_new_signal s (last_signal st) = true /\
                position st = position_before s /\
                position st' = position_for s /\
                last_signal st' = Some s /\ emitted evs = [s])).
Proof.
  pose proof (tick_unrolled inp st) as H.
  destruct (answer inp) as [price|].
  2:{ eexists _, _. split; [exact H|]. left. auto. }
  destruct H as (ps & signal & _ & Hg & ->).
  destruct signal as [s|].
  - destruct (is_new_signal s (last_signal st)) eqn:E.
    + eexists _, _. split; [reflexivity|]. right. exists s.
      split; [exact E|].
      split; [exact (generate_signal_gated _ s Hg)|].
      cbn. rewrite emitted_notification. auto.
    + eexists _, _. split; [reflexivity|]. left. auto.
  - eexists _, _. split; [reflexivity|]. left. auto.
Qed.

(** The history after an append is the old one with the new price at the
    end, less its first price when one is dropped. *)
Lemma append_price_shape (ps ps' : list float) (price : float) :
  append_price ps price = Ok ps' ->
  ps' = ps ++ [price] \/ exists oldest, oldest :: ps' = ps ++ [price].
Proof.
  unfold append_price, append. destruct (_ >? _).
  - destruct ps as [|o rest]; simpl; intros [= <-]; right; eauto.
  - intros [= <-]. now left.
Qed.

(** X9. An iteration announces at most one signal.  When it announces
    none, position and last signal are unchanged.  When it announces one,
    the signal differs from the previous last signal, the position was 0 for
    BUY and 1 for SELL, and it is now 1 for BUY and 0 for SELL, with the
    signal as last signal. *)
Theorem tick_announces_at_most_one (inp : Tick) (st : State) :
  exists st' evs,
    tick inp st = Ok (st', evs) /\
    ((position st' = position st /\ last_signal st' = last_signal st /\
      emitted evs = [])
     \/
     (exists s, Some s <> last_signal st /\
                position st = position_before s /\
                position st' = position_for s /\
                last_signal st' = Some s /\ emitted evs = [s])).
Proof.
  destruct (tick_step inp st) as (st' & evs & Ht & [H|(s & Hnew & H)]).
  - exists st', evs. auto.
  - exists st', evs. split; [exact Ht|]. right. exists s.
    split; [|exact H].
    destruct (last_signal st) as [l|]; [|discriminate].
    destruct s, l; simpl in Hnew; congruence.
Qed.

Lemma tick_buy_breakout (inp : Tick) (st st' : State) (evs : list Event) :
  tick inp st = Ok (st', evs) ->
  emitted evs = [BUY] ->
  exists price older window,
    answer inp = Some price /\ position st = 0 /\
    prices st = older ++ window /\ len window = ENTRY_LOOKBACK /\
    Forall (fun x => x = S754_nan \/ float_gt price x = true) window.
Proof.
  intros Ht He. pose proof (tick_unrolled inp st) as H.
  destruct (answer inp) as [price|].
  2:{ rewrite H in Ht. injection Ht as <- <-. discriminate He. }
  destruct H as (ps & signal & Hps & Hg & H). rewrite H in Ht.
  destruct signal as [s|].
  2:{ injection Ht as <- <-. discriminate He. }
  destruct (is_new_signal s (last_signal st)).
  2:{ injection Ht as <- <-. discriminate He. }
  injection Ht as <- <-. cbn in He. rewrite emitted_notification in He.
  injection He as ->.
  destruct (generate_signal_buy_sound _ Hg)
    as (Hpos & older & window & close & Hp & Hn & Hall).
  cbn [position prices] in Hpos, Hp.
  destruct (append_price_shape _ _ _ Hps) as [E|[o E]].
  - rewrite Hp, app_assoc in E. apply app_inj_tail in E.
    destruct E as [E ->]. exists price, older, window. auto.
  - rewrite Hp in E.
    change (o :: older ++ window ++ [close])
      with ((o :: older) ++ window ++ [close]) in E.
    rewrite app_assoc in E. apply app_inj_tail in E.
    destruct E as [E ->]. exists price, (o :: older), window. auto.
Qed.

Lemma tick_sell_breakdown (inp : Tick) (st st' : State) (evs : list Event) :
  tick inp st = Ok (st', evs) ->
  emitted evs = [SELL] ->
  exists price older window,
    answer inp = Some price /\ position st = 1 /\
    prices st = older ++ window /\ len window = EXIT_LOOKBACK /\
    Forall (fun x => x = S754_nan \/ float_lt price x = true) window.
Proof.
  intros Ht He. pose proof (tick_unrolled inp st) as H.
  destruct (answer inp) as [price|].
  2:{ rewrite H in Ht. injection Ht as <- <-. discriminate He. }
  destruct H as (ps & signal & Hps & Hg & H). rewrite H in Ht.
  destruct signal as [s|].
  2:{ injection Ht as <- <-. discriminate He. }
  destruct (is_new_signal s (last_signal st)).
  2:{ injection Ht as <- <-. discriminate He. }
  injection Ht as <- <-. cbn in He. rewrite emitted_notification in He.
  injection He as ->.
  destruct (generate_signal_sell_sound _ Hg)
    as (Hpos & _ & older & window & close & Hp & Hn & Hall).
  cbn [position prices] in Hpos, Hp.
  destruct (append_price_shape _ _ _ Hps) as [E|[o E]].
  - rewrite Hp, app_assoc in E. apply app_inj_tail in E.
    destruct E as [E ->]. exists price, older, window. auto.
  - rewrite Hp in E.
    change (o :: older ++ window ++ [close])
      with ((o :: older) ++ window ++ [close]) in E.
    rewrite app_assoc in E. apply app_inj_tail in E.
    destruct E as [E ->]. exists price, (o :: older), window. auto.
Qed.

(** X10. An iteration announces BUY only for a fetched price that is
    strictly above each of the 20 prices at the end of the history it
    found, NaN apart, and only from position 0. *)
Theorem announced_buy_is_breakout (inp : Tick) (st st' : State)
        (evs : list Event) :
  tick inp st = Ok (st', evs) ->
  emitted evs = [BUY] ->
  exists price older window,
    answer inp = Some price /\ position st = 0 /\
    prices st = older ++ window /\ len window = ENTRY_LOOKBACK /\
    Forall (fun x => x = S754_nan \/ float_gt price x = true) window.
Proof. exact (tick_buy_breakout inp st st' evs). Qed.

Lemma announced_buy_is_breakout_witness :
  exists price older window,
    Some p11 = Some price /\ 0 = 0 /\
    repeat p10 20%nat = older ++ window /\ len window = ENTRY_LOOKBACK /\
    Forall (fun x => x = S754_nan \/ float_gt price x = true) window.
Proof.
  apply (announced_buy_is_breakout
           (got p11) (mkState (repeat p10 20%nat) 0 None)
           (mkState (repeat p10 20%nat ++ [p11]) 1 (Some BUY))
           [PriceLine p11 21; SignalBlock BUY p11 1; NotifySent BUY p11]).
  - vm_compute. reflexivity.
  - reflexivity.
Defined.

(** X11. An iteration announces SELL only for a fetched price that is
    strictly below each of the 10 prices at the end of the history it
    found, NaN apart, and only from position 1. *)
Theorem announced_sell_is_breakdown (inp : Tick) (st st' : State)
        (evs : list Event) :
  tick inp st = Ok (st', evs) ->
  emitted evs = [SELL] ->
  exists price older window,
    answer inp = Some price /\ position st = 1 /\
    prices st = older ++ window /\ len window = EXIT_LOOKBACK /\
    Forall (fun x => x = S754_nan \/ float_lt price x = true) window.
Proof. exact (tick_sell_breakdown inp st st' evs). Qed.

Lemma announced_sell_is_breakdown_witness :
  exists price older window,
    Some p9 = Some price /\ 1 = 1 /\
    repeat p11 20%nat = older ++ window /\ len window = EXIT_LOOKBACK /\
    Forall (fun x => x = S754_nan \/ float_lt price x = true) window.
Proof.
  apply (announced_sell_is_breakdown
           (got p9) (mkState (repeat p11 20%nat) 1 (Some BUY))
           (mkState (repeat p11 20%nat ++ [p9]) 0 (Some SELL))
           [PriceLine p9 21; SignalBlock SELL p9 0; NotifySent SELL p9]).
  - vm_compute. reflexivity.
  - reflexivity.
Defined.

(** ** More about runs of the loop *)

Lemma run_cons (inp : Tick) (rest : list Tick) (st st1 : State)
      (e1 : list Event) :
  tick inp st = Ok (st1, e1) ->
  run (inp :: rest) st =
  (r' <- run rest st1 ;; Ok (fst r', e1 ++ snd r')).
Proof. intros H. simpl. rewrite H. reflexivity. Qed.

Lemma run_total (inps : list Tick) :
  forall st, exists st' evs, run inps st = Ok (st', evs).
Proof.
  intros st.
  destruct (run_invariant (fun _ => True)) with (inps := inps) (st := st)
    as (st' & evs & H & _); eauto.
  intros inp s _. destruct (tick_step inp s) as (s' & e & Ht & _). eauto.
Qed.

(** The first signal of a run is the one the starting position allows. *)
Lemma run_first_signal (inps : list Tick) :
  forall st,
    exists st' evs,
      run inps st = Ok (st', evs) /\
      match emitted evs with
      | [] => True
      | s :: _ => position st = position_before s
      end.
Proof.
  induction inps as [|inp rest IH]; intros st.
  - exists st, []. split; [reflexivity|exact I].
  - destruct (tick_step inp st) as (st1 & e1 & Ht & Hcase).
    rewrite (run_cons inp rest st st1 e1 Ht).
    destruct (IH st1) as (st2 & e2 & -> & Hhead). cbn [bind fst snd].
    exists st2, (e1 ++ e2). split; [reflexivity|].
    rewrite emitted_app.
    destruct Hcase as [(Hpos & _ & ->)|(s & _ & Hpos & _ & _ & ->)]; simpl.
    + rewrite <- Hpos. exact Hhead.
    + exact Hpos.
Qed.

(** X13. The first signal a run from the initial state announces, if any,
    is BUY. *)
Theorem first_signal_is_buy (inps : list Tick) :
  exists st evs,
    run inps initial_state = Ok (st, evs) /\
    (emitted evs = [] \/ exists rest, emitted evs = BUY :: rest).
Proof.
  destruct (run_first_signal inps initial_state) as (st & evs & Hrun & Hhead).
  exists st, evs. split; [exact Hrun|].
  destruct (emitted evs) as [|s rest]; [now left|right].
  destruct s; [eauto|discriminate Hhead].
Qed.

Lemma last_cons_default {A} (l : list A) (a d : A) :
  last (a :: l) d = last l a.
Proof.
  revert a d. induction l as [|b l IH]; intros a d; [reflexivity|].
  change (last (a :: b :: l) d) with (last (b :: l) d).
  rewrite !IH. reflexivity.
Qed.

Lemma run_last_signal (inps : list Tick) :
  forall st,
    exists st' evs,
      run inps st = Ok (st', evs) /\
      last_signal st' = last (map Some (emitted evs)) (last_signal st).
Proof.
  induction inps as [|inp rest IH]; intros st.
  - exists st, []. split; reflexivity.
  - destruct (tick_step inp st) as (st1 & e1 & Ht & Hcase).
    rewrite (run_cons inp rest st st1 e1 Ht).
    destruct (IH st1) as (st2 & e2 & -> & Hlast). cbn [bind fst snd].
    exists st2, (e1 ++ e2). split; [reflexivity|].
    rewrite emitted_app, Hlast.
    destruct Hcase as [(_ & -> & ->)|(s & _ & _ & _ & -> & ->)].
    + reflexivity.
    + cbn [app map]. symmetry. apply last_cons_default.
Qed.

(** X14. After any run from the initial state, [last_signal] is the last
    signal the run announced, and None when it announced none. *)
Theorem last_signal_is_last_announced (inps : list Tick) :
  exists st evs,
    run inps initial_state = Ok (st, evs) /\
    last_signal st = last (map Some (emitted evs)) None.
Proof. exact (run_last_signal inps initial_state). Qed.

Lemma run_consistent (inps : list Tick) (st : State) (evs : list Event) :
  run inps initial_state = Ok (st, evs) -> consistent st.
Proof.
  intros H.
  destruct (run_invariant consistent tick_consistent inps initial_state)
    as (st' & evs' & H' & Hc).
  { unfold consistent. simpl. intuition congruence. }
  rewrite H in H'. injection H' as -> _. exact Hc.
Qed.

(** X15. In the loop the test [signal != last_signal] never holds a signal
    back: after any run from the initial state, whatever the history the
    next iteration builds, a signal returned by [generate_signal] differs
    from [last_signal]. *)
Theorem debounce_never_suppresses (inps : list Tick) (st : State)
        (evs : list Event) (ps : list float) (s : Signal) :
  run inps initial_state = Ok (st, evs) ->
  generate_signal (mkState ps (position st) (last_signal st)) = Ok (Some s) ->
  is_new_signal s (last_signal st) = true.
Proof.
  intros Hrun Hg.
  pose proof (run_consistent inps st evs Hrun) as [H1 H0].
  pose proof (generate_signal_gated _ s Hg) as Hpos. cbn [position] in Hpos.
  destruct s; simpl in Hpos.
  - apply H0 in Hpos. destruct Hpos as [-> | ->]; reflexivity.
  - apply H1 in Hpos. rewrite Hpos. reflexivity.
Qed.

Lemma debounce_never_suppresses_witness :
  is_new_signal SELL (Some BUY) = true.
Proof.
  apply (debounce_never_suppresses
           (repeat (got p10) 20%nat ++ [got p11])
           (mkState (repeat p10 20%nat ++ [p11]) 1 (Some BUY))
           (map (fun n => PriceLine p10 (Z.of_nat n)) (seq 1 20)
                ++ [PriceLine p11 21; SignalBlock BUY p11 1;
                    NotifySent BUY p11])
           (repeat p11 20%nat ++ [p9]) SELL).
  - vm_compute. reflexivity.
  - vm_compute. reflexivity.
Defined.

Lemma run_warm_up (inps : list Tick) :
  forall st,
    len (prices st) + len (fetched_prices inps) < MIN_HISTORY ->
    exists evs,
      run inps st
      = Ok (mkState (prices st ++ fetched_prices inps)
                    (position st) (last_signal st), evs) /\
      emitted evs = [].
Proof.
  induction inps as [|inp rest IH]; intros st Hlen.
  - exists []. simpl. rewrite app_nil_r. destruct st; auto.
  - pose proof (tick_unrolled inp st) as H. cbn [fetched_prices] in *.
    destruct (answer inp) as [price|].
    + destruct H as (ps & signal & Hps & Hg & Ht).
      assert (Hlen' : len (price :: fetched_prices rest)
                      = 1 + len (fetched_prices rest))
        by (unfold len; cbn [length]; lia).
      pose proof (len_nonneg (fetched_prices rest)) as Hr.
      pose proof (len_nonneg (prices st)) as Hs.
      assert (Hcap : len (prices st) <= 5000)
        by (unfold MIN_HISTORY, ENTRY_LOOKBACK, EXIT_LOOKBACK in Hlen; lia).
      destruct (append_price_cases (prices st) price Hcap)
        as (ps' & Hps' & _ & [[_ ->]|[Hfull _]]).
      2:{ unfold MIN_HISTORY, ENTRY_LOOKBACK, EXIT_LOOKBACK in Hlen. lia. }
      rewrite Hps in Hps'. injection Hps' as ->.
      rewrite generate_signal_too_short in Hg.
      2:{ cbn [prices]. rewrite len_app. change (len [price]) with 1. lia. }
      injection Hg as <-.
      rewrite (run_cons inp rest st _ _ Ht).
      destruct (IH (mkState (prices st ++ [price]) (position st)
                            (last_signal st))) as (evs & -> & He).
      { cbn [prices]. rewrite len_app. change (len [price]) with 1. lia. }
      cbn [bind fst snd prices position last_signal].
      eexists. split.
      * rewrite <- app_assoc. reflexivity.
      * simpl. exact He.
    + rewrite (run_cons inp rest st _ _ H).
      destruct (IH st Hlen) as (evs & -> & He). cbn [bind fst snd].
      eexists. split; [reflexivity|]. simpl. exact He.
Qed.

(** X16. While fewer than 21 prices have been obtained, nothing is
    announced: the run ends with exactly the obtained prices as history,
    position 0 and no last signal. *)
Theorem no_signal_during_warm_up (inps : list Tick) :
  len (fetched_prices inps) < MIN_HISTORY ->
  exists evs,
    run inps initial_state = Ok (mkState (fetched_prices inps) 0 None, evs)
    /\ emitted evs = [].
Proof.
  intros H. exact (run_warm_up inps initial_state H).
Qed.

Lemma no_signal_during_warm_up_witness :
  exists evs,
    run (repeat (got p10) 19%nat ++ [got p11]) initial_state
    = Ok (mkState (repeat p10 19%nat ++ [p11]) 0 None, evs)
    /\ emitted evs = [].
Proof.
  apply (no_signal_during_warm_up (repeat (got p10) 19%nat ++ [got p11])).
  vm_compute. reflexivity.
Defined.

Lemma tick_same_answer (inp inp' : Tick) (st : State) :
  answer inp = answer inp' ->
  exists st' evs evs',
    tick inp st = Ok (st', evs) /\ tick inp' st = Ok (st', evs') /\
    emitted evs = emitted evs'.
Proof.
  intros Ha.
  pose proof (tick_unrolled inp st) as H.
  pose proof (tick_unrolled inp' st) as H'.
  rewrite <- Ha in H'. destruct (answer inp) as [price|].
  2:{ eexists _, _, _. eauto. }
  destruct H as (ps & signal & Hps & Hg & ->).
  destruct H' as (ps' & signal' & Hps' & Hg' & ->).
  rewrite Hps in Hps'. injection Hps' as <-.
  rewrite Hg in Hg'. injection Hg' as <-.
  destruct signal as [s|].
  - destruct (is_new_signal s (last_signal st)).
    + eexists _, _, _. split; [reflexivity|]. split; [reflexivity|].
      cbn. rewrite !emitted_notification. reflexivity.
    + eexists _, _, _. eauto.
  - eexists _, _, _. eauto.
Qed.

(** X17. The notifier has no say in what the loop does: two runs that
    obtain the same prices and failures, iteration by iteration, end in the
    same state and announce the same signals, however the notifications of
    each went. *)
Theorem run_ignores_notifier (inps inps' : list Tick) (st : State) :
  map answer inps = map answer inps' ->
  exists st' evs evs',
    run inps st = Ok (st', evs) /\ run inps' st = Ok (st', evs') /\
    emitted evs = emitted evs'.
Proof.
  revert inps' st.
  induction inps as [|inp rest IH]; intros [|inp' rest'] st Hmap;
    try discriminate Hmap.
  - exists st, [], []. auto.
  - cbn [map] in Hmap. injection Hmap as Ha Hrest.
    destruct (tick_same_answer inp inp' st Ha) as (st1 & e1 & e1' & Ht & Ht' & He).
    rewrite (run_cons inp rest st st1 e1 Ht).
    rewrite (run_cons inp' rest' st st1 e1' Ht').
    destruct (IH rest' st1 Hrest) as (st2 & e2 & e2' & -> & -> & He2).
    cbn [bind fst snd].
    eexists _, _, _. split; [reflexivity|]. split; [reflexivity|].
    rewrite !emitted_app, He, He2. reflexivity.
Qed.

Lemma run_ignores_notifier_witness :
  exists st' evs evs',
    run (repeat (got p10) 20%nat ++ [mkTick (Some p11) true]) initial_state
    = Ok (st', evs) /\
    run (repeat (got p10) 20%nat ++ [mkTick (Some p11) false]) initial_state
    = Ok (st', evs') /\
    emitted evs = emitted evs'.
Proof.
  apply (run_ignores_notifier
           (repeat (got p10) 20%nat ++ [mkTick (Some p11) true])
           (repeat (got p10) 20%nat ++ [mkTick (Some p11) false])
           initial_state).
  reflexivity.
Defined.

Lemma tick_prints (inp : Tick) (st : State) :
  len (prices st) <= 5000 ->
  exists st' evs,
    tick inp st = Ok (st', evs) /\ tick_log evs /\ len (prices st') <= 5000.
Proof.
  intros Hcap. pose proof (tick_unrolled inp st) as H.
  destruct (answer inp) as [price|].
  2:{ exists st, [FetchErrorLine]. split; [exact H|].
      split; [constructor|exact Hcap]. }
  destruct H as (ps & signal & Hps & _ & ->).
  assert (Hn : 1 <= len ps <= 5000).
  { destruct (append_price_cases (prices st) price Hcap)
      as (ps' & Hps' & Hle & Hcase).
    rewrite Hps in Hps'. injection Hps' as <-. split; [|exact Hle].
    pose proof (len_nonneg (prices st)).
    destruct Hcase as [[_ ->]|(_ & o & rest & _ & ->)];
      rewrite len_app; change (len [price]) with 1;
      [lia|pose proof (len_nonneg rest); lia]. }
  destruct signal as [s|].
  - destruct (is_new_signal s (last_signal st)).
    + eexists _, _. split; [reflexivity|].
      split; [now constructor|apply Hn].
    + eexists _, _. split; [reflexivity|].
      split; [now constructor|apply Hn].
  - eexists _, _. split; [reflexivity|].
    split; [now constructor|apply Hn].
Qed.

Lemma run_prints (inps : list Tick) :
  forall st,
    len (prices st) <= 5000 ->
    exists st' evs, run inps st = Ok (st', evs) /\ run_log evs.
Proof.
  induction inps as [|inp rest IH]; intros st Hcap.
  - exists st, []. split; [reflexivity|constructor].
  - destruct (tick_prints inp st Hcap) as (st1 & e1 & Ht & Hlog & Hcap1).
    rewrite (run_cons inp rest st st1 e1 Ht).
    destruct (IH st1 Hcap1) as (st2 & e2 & -> & Hlog2). cbn [bind fst snd].
    exists st2, (e1 ++ e2). split; [reflexivity|]. now constructor.
Qed.

(** X18. What [main_loop] prints is its four start-up lines followed by
    a sequence of iteration logs, each of them the error line of a failed
    request, or a price line with a history length from 1 to 5000, followed
    for an announced signal by its block, showing the new position, and by
    the line of exactly one notification attempt for that signal and price.
    So no notification goes out without a signal block just before it, and
    no signal block without its price line. *)
Theorem printed_log_is_well_formed (inps : list Tick) :
  exists st evs,
    main_loop inps = Ok (st, map inl banner ++ map inr evs) /\
    run inps initial_state = Ok (st, evs) /\
    run_log evs.
Proof.
  destruct (run_prints inps initial_state) as (st & evs & Hrun & Hlog).
  { unfold len. simpl. lia. }
  exists st, evs. unfold main_loop. rewrite Hrun. auto.
Qed.

Lemma run_constant_feed (p : float) (inps : list Tick) :
  forall st,
    Forall (fun inp => answer inp = None \/ answer inp = Some p) inps ->
    Forall (eq p) (prices st) ->
    exists st' evs,
      run inps st = Ok (st', evs) /\ emitted evs = [] /\
      position st' = position st /\ last_signal st' = last_signal st.
Proof.
  induction inps as [|inp rest IH]; intros st Hin Hall.
  - exists st, []. auto.
  - pose proof (Forall_inv Hin) as Ha. cbv beta in Ha.
    pose proof (Forall_inv_tail Hin) as Hrest.
    pose proof (tick_unrolled inp st) as H.
    destruct (answer inp) as [price|].
    + destruct Ha as [Ha|Ha]; [discriminate Ha|]. injection Ha as ->.
      destruct H as (ps & signal & Hps & Hg & Ht).
      assert (Hall' : Forall (eq p) ps).
      { assert (Hfull : Forall (eq p) (prices st ++ [p])).
        { apply Forall_app. split; [exact Hall|]. repeat constructor. }
        destruct (append_price_shape _ _ _ Hps) as [->|[o E]];
          [exact Hfull|].
        rewrite <- E in Hfull. exact (Forall_inv_tail Hfull). }
      rewrite (generate_signal_flat_history _ p) in Hg by exact Hall'.
      injection Hg as <-.
      rewrite (run_cons inp rest st _ _ Ht).
      destruct (IH (mkState ps (position st) (last_signal st)) Hrest Hall')
        as (st2 & e2 & -> & He & Hpos & Hlast).
      cbn [bind fst snd]. eexists _, _. split; [reflexivity|].
      simpl. auto.
    + rewrite (run_cons inp rest st _ _ H).
      destruct (IH st Hrest Hall) as (st2 & e2 & -> & He & Hpos & Hlast).
      cbn [bind fst snd]. eexists _, _. split; [reflexivity|].
      simpl. auto.
Qed.

(** X19. A price source that always answers the same price, between any
    failures, never causes a signal: the run announces nothing and ends at
    position 0 without a last signal, however long it is and whatever the
    price (NaN and the infinities included). *)
Theorem constant_feed_never_signals (p : float) (inps : list Tick) :
  Forall (fun inp => answer inp = None \/ answer inp = Some p) inps ->
  exists st evs,
    run inps initial_state = Ok (st, evs) /\ emitted evs = [] /\
    position st = 0 /\ last_signal st = None.
Proof.
  intros H. apply (run_constant_feed p inps initial_state H). constructor.
Qed.

Lemma constant_feed_never_signals_witness :
  exists st evs,
    run (repeat (got p10) 30%nat ++ [mkTick None true; got p10])
        initial_state = Ok (st, evs) /\
    emitted evs = [] /\ position st = 0 /\ last_signal st = None.
Proof.
  apply (constant_feed_never_signals p10).
  apply Forall_app. split.
  - apply Forall_forall. intros inp Hin.
    apply repeat_spec in Hin. subst inp. right. reflexivity.
  - constructor; [left; reflexivity|].
    constructor; [right; reflexivity|constructor].
Defined.

(** ** Breakouts are announced *)

Lemma generate_signal_buy_complete (st : State) (older window : list float)
      (close : float) :
  prices st = older ++ window ++ [close] ->
  len window = ENTRY_LOOKBACK ->
  position st = 0 ->
  Forall (fun x => float_gt close x = true) window ->
  generate_signal st = Ok (Some BUY).
Proof.
  intros Hp Hn Hpos Hall.
  destruct (generate_signal_by_entry_window st older window close Hp Hn)
    as [Hne ->].
  destruct (max_In window) as [h [-> Hin]].
  { apply (nonempty_window _ _ Hn). reflexivity. }
  destruct (min_In _ Hne) as [l [-> _]]. cbn [bind].
  rewrite Forall_forall in Hall. rewrite (Hall h Hin), Hpos. reflexivity.
Qed.

Lemma generate_signal_sell_complete (st : State) (older window : list float)
      (close : float) :
  prices st = older ++ window ++ [close] ->
  len window = EXIT_LOOKBACK ->
  MIN_HISTORY <= len (prices st) ->
  position st = 1 ->
  Forall (fun x => float_lt close x = true) window ->
  generate_signal st = Ok (Some SELL).
Proof.
  intros Hp Hm Hlen Hpos Hall.
  destruct (generate_signal_by_exit_window st older window close Hp Hm Hlen)
    as [before ->].
  assert (Hne : window <> []).
  { apply (nonempty_window _ _ Hm). reflexivity. }
  destruct (max_In (before ++ window)) as [h [-> _]].
  { intros E. apply app_eq_nil in E. tauto. }
  destruct (min_In window Hne) as [l [-> Hin]]. cbn [bind].
  rewrite Forall_forall in Hall. rewrite (Hall l Hin), Hpos. reflexivity.
Qed.

Lemma run_cap (inps : list Tick) (st : State) (evs : list Event) :
  run inps initial_state = Ok (st, evs) -> len (prices st) <= 5000.
Proof.
  intros H.
  destruct (run_prices inps initial_state) as (st' & evs' & H' & Hps).
  { unfold len. simpl. lia. }
  rewrite H in H'. injection H' as -> _.
  rewrite Hps. apply len_newest_5000.
Qed.

(** After the append, the window that ended the history is the window
    before the close. *)
Lemma append_price_window (ps older window : list float) (price : float)
      (k : Z) :
  len ps <= 5000 ->
  ps = older ++ window ->
  len window = k -> 0 < k < 5000 ->
  exists ps' older',
    append_price ps price = Ok ps' /\
    ps' = older' ++ window ++ [price] /\
    len ps' = Z.min (len ps + 1) 5000.
Proof.
  intros Hcap Hp Hk Hrange.
  destruct (append_price_cases ps price Hcap)
    as (ps' & Hps & _ & [[Hlt ->]|(Hfull & o & rest & Ho & ->)]).
  - exists (ps ++ [price]), older. split; [exact Hps|].
    split; [rewrite Hp, <- app_assoc; reflexivity|].
    rewrite len_app. change (len [price]) with 1. lia.
  - destruct older as [|o' older'].
    + exfalso. simpl in Hp. rewrite Hp in Hfull. lia.
    + rewrite Hp in Ho. injection Ho as _ <-.
      exists ((older' ++ window) ++ [price]), older'.
      split; [exact Hps|]. split; [rewrite <- app_assoc; reflexivity|].
      assert (Hl : len ps = 1 + len (older' ++ window)).
      { rewrite Hp. unfold len. cbn [app length]. lia. }
      rewrite len_app. change (len [price]) with 1. lia.
Qed.

(** X20. In the loop every entry breakout is announced: after any run from
    the initial state, with position 0, a fetched price strictly above
    each of the last 20 prices of the history makes the next iteration
    announce BUY and set the position to 1, with BUY as last signal. *)
Theorem breakout_is_announced (inps : list Tick) (st : State)
        (evs : list Event) (older window : list float) (price : float)
        (ok : bool) :
  run inps initial_state = Ok (st, evs) ->
  position st = 0 ->
  prices st = older ++ window ->
  len window = ENTRY_LOOKBACK ->
  Forall (fun x => float_gt price x = true) window ->
  exists st' evs',
    tick (mkTick (Some price) ok) st = Ok (st', evs') /\
    emitted evs' = [BUY] /\ position st' = 1 /\
    last_signal st' = Some BUY.
Proof.
  intros Hrun Hpos Hp Hn Hall.
  pose proof (run_cap inps st evs Hrun) as Hcap.
  pose proof (run_consistent inps st evs Hrun) as [_ H0].
  pose proof (tick_unrolled (mkTick (Some price) ok) st) as H.
  cbn [answer] in H. destruct H as (ps & signal & Hps & Hg & ->).
  destruct (append_price_window (prices st) older window price
                                ENTRY_LOOKBACK Hcap Hp Hn)
    as (ps' & older' & Hps' & Hshape & _).
  { unfold ENTRY_LOOKBACK. lia. }
  rewrite Hps in Hps'. injection Hps' as <-.
  rewrite (generate_signal_buy_complete _ older' window price) in Hg; auto.
  injection Hg as <-.
  apply H0 in Hpos.
  assert (Hnew : is_new_signal BUY (last_signal st) = true)
    by (destruct Hpos as [-> | ->]; reflexivity).
  rewrite Hnew. eexists _, _. split; [reflexivity|].
  cbn. rewrite emitted_notification. auto.
Qed.

Lemma breakout_is_announced_witness :
  exists st' evs',
    tick (mkTick (Some p11) false) (mkState (repeat p10 20%nat) 0 None)
    = Ok (st', evs') /\
    emitted evs' = [BUY] /\ position st' = 1 /\
    last_signal st' = Some BUY.
Proof.
  apply (breakout_is_announced
           (repeat (got p10) 20%nat)
           (mkState (repeat p10 20%nat) 0 None)
           (map (fun n => PriceLine p10 (Z.of_nat n)) (seq 1 20))
           [] (repeat p10 20%nat) p11 false).
  - vm_compute. reflexivity.
  - reflexivity.
  - reflexivity.
  - reflexivity.
  - apply Forall_forall. intros x Hx.
    apply repeat_spec in Hx. subst x. reflexivity.
Defined.

(** X21. In the loop every exit breakdown is announced: after any run from
    the initial state, with position 1 and at least 20 prices in the
    history, a fetched price strictly below each of the last 10 prices makes
    the next iteration announce SELL and set the position to 0, with SELL as
    last signal. *)
Theorem breakdown_is_announced (inps : list Tick) (st : State)
        (evs : list Event) (older window : list float) (price : float)
        (ok : bool) :
  run inps initial_state = Ok (st, evs) ->
  position st = 1 ->
  20 <= len (prices st) ->
  prices st = older ++ window ->
  len window = EXIT_LOOKBACK ->
  Forall (fun x => float_lt price x = true) window ->
  exists st' evs',
    tick (mkTick (Some price) ok) st = Ok (st', evs') /\
    emitted evs' = [SELL] /\ position st' = 0 /\
    last_signal st' = Some SELL.
Proof.
  intros Hrun Hpos Hlen Hp Hm Hall.
  pose proof (run_cap inps st evs Hrun) as Hcap.
  pose proof (run_consistent inps st evs Hrun) as [H1 _].
  pose proof (tick_unrolled (mkTick (Some price) ok) st) as H.
  cbn [answer] in H. destruct H as (ps & signal & Hps & Hg & ->).
  destruct (append_price_window (prices st) older window price
                                EXIT_LOOKBACK Hcap Hp Hm)
    as (ps' & older' & Hps' & Hshape & Hlen').
  { unfold EXIT_LOOKBACK. lia. }
  rewrite Hps in Hps'. injection Hps' as <-.
  rewrite (generate_signal_sell_complete _ older' window price) in Hg; auto.
  2:{ cbn [prices]. rewrite Hlen'.
      unfold MIN_HISTORY, ENTRY_LOOKBACK, EXIT_LOOKBACK. lia. }
  injection Hg as <-.
  apply H1 in Hpos. rewrite Hpos.
  eexists _, _. split; [reflexivity|].
  cbn. rewrite emitted_notification. auto.
Qed.

Lemma breakdown_is_announced_witness :
  exists st' evs',
    tick (mkTick (Some p9) true)
         (mkState (repeat p10 20%nat ++ [p11]) 1 (Some BUY))
    = Ok (st', evs') /\
    emitted evs' = [SELL] /\ position st' = 0 /\
    last_signal st' = Some SELL.
Proof.
  apply (breakdown_is_announced
           (repeat (got p10) 20%nat ++ [got p11])
           (mkState (repeat p10 20%nat ++ [p11]) 1 (Some BUY))
           (map (fun n => PriceLine p10 (Z.of_nat n)) (seq 1 20)
                ++ [PriceLine p11 21; SignalBlock BUY p11 1;
                    NotifySent BUY p11])
           (repeat p10 11%nat) (repeat p10 9%nat ++ [p11]) p9 true).
  - vm_compute. reflexivity.
  - reflexivity.
  - vm_compute. discriminate.
  - reflexivity.
  - reflexivity.
  - repeat (constructor; [reflexivity|]). constructor.
Defined.
